(** * thepiratedb: the crawl pipeline of [thepiratedb.go]

    A shallow embedding of the extractor ([ParseTorrent]), the worker
    ([runner]), the dispatcher loop of [main] and the [writer], followed by
    the properties of the specification that concern them.

    Go's [[]byte] and [string] are both sequences of bytes and are modelled
    by [string] (a list of 8-bit [ascii]); Go's [int], [int64] and
    [time.Duration] are 64-bit and modelled by [Z] with the wrap-around
    written out. *)

From Stdlib Require Import ZArith String Ascii List Bool Lia.
From stdpp Require Import base option list sorting gmap strings pretty.

Local Open Scope Z_scope.

(** ** Bytes *)

(** The double quote, which the patterns of the source contain. *)
Definition dq : string := String (ascii_of_nat 34) EmptyString.

Module bytes.

(** [bytes.HasPrefix(s, prefix)]. *)
Fixpoint HasPrefix (s prefix : string) : bool :=
  match prefix, s with
  | EmptyString, _ => true
  | String p prefix', String c s' => Ascii.eqb p c && HasPrefix s' prefix'
  | String _ _, EmptyString => false
  end.

(** [bytes.Index(s, sep)]: the index of the first instance of [sep] in [s],
    or -1. *)
Fixpoint index_from (n : Z) (s sep : string) : Z :=
  if HasPrefix s sep then n
  else match s with
       | EmptyString => -1
       | String _ s' => index_from (n + 1) s' sep
       end.

Definition Index (s sep : string) : Z := index_from 0 s sep.

End bytes.

(** A byte slice as Go has it: a window of [len] bytes on a backing array.
    [backing] holds the array from the slice's first element on, so
    [cap(s)] is its length; [len(s)] never exceeds it. *)
Record Slice := mkSlice { backing : string; len : nat }.

Definition cap (s : Slice) : nat := String.length (backing s).

(** The bytes of [s], what every function that takes the slice reads. *)
Definition contents (s : Slice) : string := substring 0 (len s) (backing s).

(** [s[:hi]]. For a slice the upper bound of a slice expression is the
    capacity, not the length; beyond it the expression panics ([None]). *)
Definition reslice (s : Slice) (hi : nat) : option string :=
  if (hi <=? cap s)%nat then Some (substring 0 hi (backing s)) else None.

(** A slice with no spare capacity. *)
Definition exact_slice (b : string) : Slice := mkSlice b (String.length b).

(** ** 64-bit integers *)

Definition MaxInt64 : Z := 9223372036854775807.
Definition MinInt64 : Z := -9223372036854775808.

Definition wrap64 (z : Z) : Z := (z + 2 ^ 63) mod 2 ^ 64 - 2 ^ 63.

Definition add64 (a b : Z) : Z := wrap64 (a + b).
Definition mul64 (a b : Z) : Z := wrap64 (a * b).

Definition in_int64 (z : Z) : Prop := MinInt64 <= z <= MaxInt64.

(** ** Regular expressions

    The patterns of the source only repeat single-character classes, so a
    pattern is a sequence of atoms and the matcher recurses on the pattern and,
    inside a repetition, on the input. The matcher backtracks in priority
    order (greedy repetitions try one more character first, lazy ones try the
    rest of the pattern first), which is the leftmost-first match that Go's
    [regexp] returns. Every class boundary of these patterns is an ASCII
    character, so matching bytes and matching runes give the same
    submatches. *)

Module regexp.

Inductive Atom :=
| Chr (c : ascii)                         (* a literal byte *)
| Cls (p : ascii -> bool)                 (* one byte of a class *)
| Rep (p : ascii -> bool) (greedy : bool) (* [p*] or [p*?] *)
| GroupOpen                               (* [(] *)
| GroupClose.                             (* [)] *)

Definition Regexp := list Atom.

Fixpoint lit (s : string) : Regexp :=
  match s with
  | EmptyString => []
  | String c s' => Chr c :: lit s'
  end.

(** [p+] and [p+?]. *)
Definition plus (p : ascii -> bool) (greedy : bool) : Regexp :=
  [Cls p; Rep p greedy].

(** Character classes. *)
Definition any : ascii -> bool := fun _ => true.                (* (?s). *)
Definition dot (c : ascii) : bool := negb (Ascii.eqb c "010"). (* .     *)
Definition space (c : ascii) : bool :=                           (* \s    *)
  let n := nat_of_ascii c in
  (n =? 9)%nat || (n =? 10)%nat || (n =? 12)%nat || (n =? 13)%nat
  || (n =? 32)%nat.
Definition digit (c : ascii) : bool :=                           (* \d    *)
  let n := nat_of_ascii c in (48 <=? n)%nat && (n <=? 57)%nat.
Definition not_gt (c : ascii) : bool := negb (Ascii.eqb c ">"). (* [^>]  *)
Definition a_or_i (c : ascii) : bool :=                          (* [ai]  *)
  Ascii.eqb c "a" || Ascii.eqb c "i".

(** The state of a match: the position reached and the bounds of the
    capture group. *)
Record Pos := mkPos { at_ : nat; gstart : nat; gend : nat }.

Definition step (p : Pos) : Pos := mkPos (S (at_ p)) (gstart p) (gend p).

Fixpoint backtrack (re : Regexp) : string -> Pos -> option Pos :=
  match re with
  | [] => fun _ p => Some p
  | Chr c :: re' => fun s p =>
      match s with
      | String c' s' => if Ascii.eqb c c' then backtrack re' s' (step p)
                        else None
      | EmptyString => None
      end
  | Cls cl :: re' => fun s p =>
      match s with
      | String c' s' => if cl c' then backtrack re' s' (step p) else None
      | EmptyString => None
      end
  | Rep cl greedy :: re' =>
      fix rep (s : string) (p : Pos) {struct s} : option Pos :=
        let more (_ : unit) :=
          match s with
          | String c' s' => if cl c' then rep s' (step p) else None
          | EmptyString => None
          end in
        if greedy then
          match more tt with
          | Some r => Some r
          | None => backtrack re' s p
          end
        else
          match backtrack re' s p with
          | Some r => Some r
          | None => more tt
          end
  | GroupOpen :: re' => fun s p =>
      backtrack re' s (mkPos (at_ p) (at_ p) (gend p))
  | GroupClose :: re' => fun s p =>
      backtrack re' s (mkPos (at_ p) (gstart p) (at_ p))
  end.

(** The leftmost match: the first start position at which the pattern
    matches. The result holds the start of the match and its final state. *)
Fixpoint search (re : Regexp) (s : string) (from : nat) : option (nat * Pos) :=
  match backtrack re s (mkPos from 0 0) with
  | Some r => Some (from, r)
  | None =>
      match s with
      | String _ s' => search re s' (S from)
      | EmptyString => None
      end
  end.

(** [re.FindSubmatch(b)]: [nil] when there is no match, otherwise the text
    of the match followed by the text of the capture group. *)
Definition FindSubmatch (re : Regexp) (b : string) : option (list string) :=
  match search re b 0 with
  | None => None
  | Some (from, r) =>
      Some [ substring from (at_ r - from) b
           ; substring (gstart r) (gend r - gstart r) b ]
  end.

(** [re.ReplaceAllLiteralString(src, repl)] with [repl] empty, for a
    pattern that never matches the empty string: the matches are cut out, from left
    to right and without overlap. [skip] counts the bytes of the current
    match that are still to be dropped. *)
Fixpoint cut (re : Regexp) (skip : nat) (src : string) : string :=
  match src with
  | EmptyString => EmptyString
  | String c src' =>
      match skip with
      | S k => cut re k src'
      | O =>
          match backtrack re src (mkPos 0 0 0) with
          | Some r => cut re (Nat.pred (at_ r)) src'
          | None => String c (cut re 0 src')
          end
      end
  end.

Definition ReplaceAllLiteralString_empty (re : Regexp) (src : string) : string :=
  cut re 0 src.

End regexp.

Import regexp.

(** [match[1]]. *)
Definition sub1 (m : list string) : string := nth 1 m EmptyString.

(** ** The patterns of the source *)

Module regexes.

Definition title : Regexp :=
  lit ("<div id=" +:+ dq +:+ "title" +:+ dq +:+ ">") ++ [Rep space true]
  ++ [GroupOpen] ++ plus dot false ++ [GroupClose]
  ++ [Rep space true] ++ lit "</div>".

Definition category : Regexp :=
  lit "<dt>Type:</dt>" ++ [Rep space true] ++ lit "<dd><a"
  ++ [Rep not_gt true] ++ lit ">"
  ++ [GroupOpen] ++ plus dot false ++ [GroupClose] ++ lit "</a></dd>".

Definition size : Regexp :=
  lit "<dt>Size:</dt>" ++ [Rep any false] ++ lit "("
  ++ [GroupOpen] ++ plus digit true ++ [GroupClose]
  ++ lit "&nbsp;Bytes)</dd>".

Definition seeders : Regexp :=
  lit "<dt>Seeders:</dt>" ++ [Rep any false]
  ++ [GroupOpen] ++ plus digit true ++ [GroupClose] ++ lit "</dd>".

Definition leechers : Regexp :=
  lit "<dt>Leechers:</dt>" ++ [Rep any false]
  ++ [GroupOpen] ++ plus digit true ++ [GroupClose] ++ lit "</dd>".

Definition uploaded : Regexp :=
  lit "<dt>Uploaded:</dt>" ++ [Rep space true] ++ lit "<dd>"
  ++ [GroupOpen] ++ plus dot false ++ [GroupClose] ++ lit "</dd>".

Definition uploader : Regexp :=
  lit "<dt>By:</dt>" ++ [Rep space true] ++ lit "<dd>" ++ [Rep space true]
  ++ lit "<" ++ [Cls a_or_i] ++ [Rep not_gt true] ++ lit ">"
  ++ [GroupOpen] ++ plus dot false ++ [GroupClose]
  ++ lit "</" ++ [Cls a_or_i] ++ lit ">".

Definition files_num : Regexp :=
  lit "<dt>Files:</dt>" ++ [Rep space true] ++ lit "<dd>" ++ plus any false
  ++ [GroupOpen] ++ plus digit true ++ [GroupClose] ++ lit "</a></dd>".

Definition description : Regexp :=
  lit ("<div class=" +:+ dq +:+ "nfo" +:+ dq +:+ ">") ++ [Rep space true]
  ++ lit "<pre>"
  ++ [GroupOpen] ++ plus any false ++ [GroupClose] ++ lit "</pre>".

Definition magnet : Regexp :=
  lit ("href=" +:+ dq)
  ++ [GroupOpen] ++ lit "magnet:" ++ plus dot false ++ [GroupClose]
  ++ lit (dq +:+ " title=" +:+ dq +:+ "Get this torrent" +:+ dq).

End regexes.

(** [(?s)<.+?>] *)
Definition stripTagsRegexp : Regexp := lit "<" ++ plus any false ++ lit ">".

Definition stripTags (s : string) : string :=
  ReplaceAllLiteralString_empty stripTagsRegexp s.

(** ** The standard library *)

(** Go's [error]: [nil] or an error with its message. *)
Definition error := option string.

Module strconv.

Inductive NumError := ErrSyntax | ErrRange.

Definition IntSize : Z := 64.

(** The value of a string of decimal digits, [None] when the string is
    empty or has another character. *)
Fixpoint digits (acc : Z) (s : string) : option Z :=
  match s with
  | EmptyString => Some acc
  | String c s' =>
      if digit c then digits (10 * acc + (Z.of_nat (nat_of_ascii c) - 48)) s'
      else None
  end.

Definition unsigned (s : string) : option Z :=
  match s with
  | EmptyString => None
  | _ => digits 0 s
  end.

(** [strconv.ParseInt(s, 10, bitSize)]. On a syntax error the value is 0;
    on a range error it is the integer of the largest magnitude of that
    size and sign. *)
Definition ParseInt (s : string) (bitSize : Z) : Z * option NumError :=
  let '(neg, body) :=
    match s with
    | String "+" s' => (false, s')
    | String "-" s' => (true, s')
    | _ => (false, s)
    end in
  match unsigned body with
  | None => (0, Some ErrSyntax)
  | Some un =>
      let cutoff := 2 ^ (bitSize - 1) in
      if negb neg && (cutoff <=? un) then (cutoff - 1, Some ErrRange)
      else if neg && (cutoff <? un) then (- cutoff, Some ErrRange)
      else (if neg then - un else un, None)
  end.

(** [strconv.Atoi(s)], which is [ParseInt(s, 10, 0)] converted to [int]. *)
Definition Atoi (s : string) : Z * option NumError := ParseInt s IntSize.

End strconv.

(** [time.Time], by its civil fields and zone abbreviation. *)
Record Time := mkTime {
  year : Z; month : Z; day : Z;
  hour : Z; minute : Z; second : Z;
  zone : string
}.

(** [time.Time{}]: January 1, year 1, 00:00:00 UTC. *)
Definition zeroTime : Time := mkTime 1 1 1 0 0 0 "UTC".

(** The two functions of the standard library whose full behaviour the
    pipeline does not depend on: entity un-escaping (a table of more than
    two thousand names) and layout-driven time parsing. The development is
    parametric in them. *)
Class Library := {
  html_UnescapeString : string -> string;
  time_Parse : string -> string -> Time * error
}.

(** ** The record *)

Record Torrent := mkTorrent {
  Id : Z;
  Title : string;
  Category : string;
  Size : Z;
  Seeders : Z;
  Leechers : Z;
  Uploaded : Time;
  Uploader : string;
  Files_num : Z;
  Description : string;
  Magnet : string
}.

(** [new(Torrent)]: every field has its zero value. *)
Definition new_Torrent : Torrent :=
  mkTorrent 0 EmptyString EmptyString 0 0 0 zeroTime EmptyString 0
            EmptyString EmptyString.

Definition set_Id (v : Z) (t : Torrent) : Torrent :=
  mkTorrent v (Title t) (Category t) (Size t) (Seeders t) (Leechers t)
            (Uploaded t) (Uploader t) (Files_num t) (Description t) (Magnet t).
Definition set_Title (v : string) (t : Torrent) : Torrent :=
  mkTorrent (Id t) v (Category t) (Size t) (Seeders t) (Leechers t)
            (Uploaded t) (Uploader t) (Files_num t) (Description t) (Magnet t).
Definition set_Category (v : string) (t : Torrent) : Torrent :=
  mkTorrent (Id t) (Title t) v (Size t) (Seeders t) (Leechers t)
            (Uploaded t) (Uploader t) (Files_num t) (Description t) (Magnet t).
Definition set_Size (v : Z) (t : Torrent) : Torrent :=
  mkTorrent (Id t) (Title t) (Category t) v (Seeders t) (Leechers t)
            (Uploaded t) (Uploader t) (Files_num t) (Description t) (Magnet t).
Definition set_Seeders (v : Z) (t : Torrent) : Torrent :=
  mkTorrent (Id t) (Title t) (Category t) (Size t) v (Leechers t)
            (Uploaded t) (Uploader t) (Files_num t) (Description t) (Magnet t).
Definition set_Leechers (v : Z) (t : Torrent) : Torrent :=
  mkTorrent (Id t) (Title t) (Category t) (Size t) (Seeders t) v
            (Uploaded t) (Uploader t) (Files_num t) (Description t) (Magnet t).
Definition set_Uploaded (v : Time) (t : Torrent) : Torrent :=
  mkTorrent (Id t) (Title t) (Category t) (Size t) (Seeders t) (Leechers t)
            v (Uploader t) (Files_num t) (Description t) (Magnet t).
Definition set_Uploader (v : string) (t : Torrent) : Torrent :=
  mkTorrent (Id t) (Title t) (Category t) (Size t) (Seeders t) (Leechers t)
            (Uploaded t) v (Files_num t) (Description t) (Magnet t).
Definition set_Files_num (v : Z) (t : Torrent) : Torrent :=
  mkTorrent (Id t) (Title t) (Category t) (Size t) (Seeders t) (Leechers t)
            (Uploaded t) (Uploader t) v (Description t) (Magnet t).
Definition set_Description (v : string) (t : Torrent) : Torrent :=
  mkTorrent (Id t) (Title t) (Category t) (Size t) (Seeders t) (Leechers t)
            (Uploaded t) (Uploader t) (Files_num t) v (Magnet t).
Definition set_Magnet (v : string) (t : Torrent) : Torrent :=
  mkTorrent (Id t) (Title t) (Category t) (Size t) (Seeders t) (Leechers t)
            (Uploaded t) (Uploader t) (Files_num t) (Description t) v.

(** ** The extractor *)

Definition layout : string := "2006-01-02 15:04:05 MST".

Section Extractor.

Context `{Library}.

(** [func ParseTorrent(data []byte, t *Torrent) error]. The record behind
    the pointer is passed in and returned, as the caller sees it after the
    call, next to the error. An assignment [t.F, err = f(...)] stores the
    value before [err] is looked at. *)
Definition ParseTorrent (data : string) (t : Torrent) : Torrent * error :=
  match FindSubmatch regexes.title data with
  | None => (t, Some "title not found")
  | Some m =>
  let t := set_Title (html_UnescapeString (sub1 m)) t in
  match FindSubmatch regexes.category data with
  | None => (t, Some "category not found")
  | Some m =>
  let t := set_Category (html_UnescapeString (sub1 m)) t in
  match FindSubmatch regexes.size data with
  | None => (t, Some "size not found")
  | Some m =>
  let '(v, err) := strconv.ParseInt (sub1 m) 64 in
  let t := set_Size v t in
  if err is Some _ then (t, Some "size malformed") else
  match FindSubmatch regexes.seeders data with
  | None => (t, Some "seeders not found")
  | Some m =>
  let '(v, err) := strconv.Atoi (sub1 m) in
  let t := set_Seeders v t in
  if err is Some _ then (t, Some "seeders malformed") else
  match FindSubmatch regexes.leechers data with
  | None => (t, Some "leechers not found")
  | Some m =>
  let '(v, err) := strconv.Atoi (sub1 m) in
  let t := set_Leechers v t in
  if err is Some _ then (t, Some "leechers malformed") else
  match FindSubmatch regexes.uploaded data with
  | None => (t, Some "uploaded not found")
  | Some m =>
  let '(v, err) := time_Parse layout (sub1 m) in
  let t := set_Uploaded v t in
  if err is Some _ then (t, Some "uploaded malformed") else
  match FindSubmatch regexes.uploader data with
  | None => (t, Some "uploader not found")
  | Some m =>
  let t := set_Uploader (sub1 m) t in
  match FindSubmatch regexes.files_num data with
  | None => (t, Some "files_num not found")
  | Some m =>
  let '(v, err) := strconv.Atoi (sub1 m) in
  let t := set_Files_num v t in
  if err is Some _ then (t, Some "files_num malformed") else
  match FindSubmatch regexes.description data with
  | None => (t, Some "description not found")
  | Some m =>
  let t := set_Description (html_UnescapeString (stripTags (sub1 m))) t in
  match FindSubmatch regexes.magnet data with
  | None => (t, Some "magnet not found")
  | Some m =>
  let t := set_Magnet (sub1 m) t in
  (t, None)
  end end end end end end end end end end.

End Extractor.

(** ** The store

    The database behind [insertQuery]: its states, and what one
    [insertQuery.Exec(t.Id, ..., t.Magnet)] does to a state, with the error
    it returns. The writer does not depend on when or why an insert fails,
    and the development is parametric in the store. *)
Class Database := {
  Store : Type;
  Exec : Store -> Torrent -> Store * error
}.

(** ** Events

    What the goroutines do that can be seen from outside, in the order in
    which one goroutine does it. *)

Inductive Event :=
| EvLog (line : string)     (* log.Printf, log.Print *)
| EvFatal (line : string)   (* log.Fatal, log.Fatalf: the line, then os.Exit(1) *)
| EvGet (url : string)      (* client.Get(url) *)
| EvSleep (d : Z)           (* time.Sleep(d), in nanoseconds *)
| EvSend (t : Torrent)      (* dbChan <- t *)
| EvPanic                   (* slice bounds out of range *)
| EvDone                    (* wg.Done() *)
| EvId (i : Z)              (* ci <- i *)
| EvClose                   (* close(ci) *)
| EvExec (t : Torrent)      (* insertQuery.Exec(t.Id, ...) *)
| EvUnlock.                 (* lock.Unlock() *)

(** How a piece of code ends: it goes on ([Next]), the process ends by
    [log.Fatal] or a panic ([Exit]), or the model ran out of fuel. *)
Inductive Outcome := Next | Exit | OutOfFuel.

(** Events that happen before the rest of a run. *)
Definition prepend (evs : list Event) (r : list Event * Outcome)
  : list Event * Outcome :=
  (evs ++ r.1, r.2).

(** ** The worker *)

Definition notFoundText : string :=
  "<title>Not Found | The Pirate Bay - The world's most resilient BitTorrent site</title>".
Definition doctype : string := "<!DOCTYPE html PUBLIC".

(** [time.Second], a [time.Duration] in nanoseconds. *)
Definition Second : Z := 1000000000.

(** What [client.Get] and [ioutil.ReadAll] give for one request. *)
Inductive Response :=
| GetError              (* client.Get returns an error *)
| ReadError             (* ioutil.ReadAll returns an error *)
| Body (body : Slice).  (* the body that was read *)

Section Pipeline.

Context `{Library} `{Database}.

(** [DEBUG] is set from the environment when the process starts. *)
Variable DEBUG : bool.

(** [LOG_INTERVAL] is 10000, and [main] sets it to 10 under [DEBUG] before
    it starts the workers. *)
Definition LOG_INTERVAL : Z := if DEBUG then 10 else 10000.

Section Runner.

(** The network: the answer to the request that is attempt number
    [tries] for identifier [i]. *)
Variable http : Z -> Z -> Response.

Variable maxTries : Z.

Definition url_of (i : Z) : string :=
  "https://thepiratebay.se/torrent/" +:+ pretty i.

(** The three retry blocks are the same: a line under [DEBUG], then the
    sleep. *)
Definition retry_events (i tries : Z) : list Event :=
  (if DEBUG
   then [EvLog ("Retry torrent " +:+ pretty i +:+ " (" +:+ pretty tries +:+ ")")]
   else [])
  ++ [EvSleep (mul64 tries Second)].

(** The end of the loop body, from [if err != nil] on: [r] is the record
    behind [t] after [ParseTorrent] and the error it returned. The error
    is reported, and unless [log.Fatal] ended the process the record is
    sent. *)
Definition deliver (i : Z) (r : Torrent * error) : list Event * Outcome :=
  match r.2 with
  | Some e =>
      if DEBUG then ([EvFatal (pretty i +:+ " " +:+ e)], Exit)
      else
        prepend [EvLog ("ERROR: torrent " +:+ pretty i +:+ ": " +:+ e)]
                ([EvSend r.1], Next)
  | None => ([EvSend r.1], Next)
  end.

(** The body of the loop from the label [start] on, for identifier [i]
    with [tries] as it is before the label. [goto start] is the
    recursive call. *)
Fixpoint start (fuel : nat) (i tries : Z) : list Event * Outcome :=
  match fuel with
  | O => ([], OutOfFuel)
  | S fuel =>
      let tries := add64 tries 1 in
      if maxTries <? tries then
        if DEBUG
        then ([EvFatal ("Failed torrent " +:+ pretty i)], Exit)
        else ([EvLog ("Failed torrent " +:+ pretty i)], Next)
      else
        match http i tries with
        | GetError =>
            prepend (EvGet (url_of i) :: retry_events i tries)
                    (start fuel i tries)
        | ReadError =>
            prepend (EvGet (url_of i) :: retry_events i tries)
                    (start fuel i tries)
        | Body body =>
            if negb (bytes.HasPrefix (contents body) doctype) then
              prepend (EvGet (url_of i) :: retry_events i tries)
                      (start fuel i tries)
            else
              match reslice body 300 with
              | None => ([EvGet (url_of i); EvPanic], Exit)
              | Some window =>
                  if 0 <=? bytes.Index window notFoundText then
                    ([EvGet (url_of i)], Next)
                  else
                    let t := set_Id i new_Torrent in
                    prepend [EvGet (url_of i)]
                            (deliver i (ParseTorrent (contents body) t))
              end
        end
  end.

(** One iteration of [for i := range ci] after the progress line. The
    fuel covers [maxTries] requests and the final test. *)
Definition process (i : Z) : list Event * Outcome :=
  start (S (Z.to_nat maxTries)) i 0.

Definition progress (i : Z) : list Event :=
  if Z.rem i LOG_INTERVAL =? 0
  then [EvLog ("Processing torrent " +:+ pretty i)]
  else [].

(** [for i := range ci { ... }] over the identifiers this worker
    receives. *)
Fixpoint range_ci (ci : list Z) : list Event * Outcome :=
  match ci with
  | [] => ([], Next)
  | i :: ci' =>
      let r := process i in
      match r.2 with
      | Next => prepend (progress i ++ r.1) (range_ci ci')
      | o => (progress i ++ r.1, o)
      end
  end.

(** [func runner(ci, dbChan, maxTries, wg)]. *)
Definition runner (ci : list Z) : list Event * Outcome :=
  let r := range_ci ci in
  match r.2 with
  | Next => (r.1 ++ [EvLog "Goroutine done."; EvDone], Next)
  | _ => r
  end.

End Runner.

(** ** The writer *)

(** [for t := range dbChan { ... }] over the records received before the
    channel is closed. *)
Fixpoint range_dbChan (dbChan : list Torrent) (db : Store)
  : Store * (list Event * Outcome) :=
  match dbChan with
  | [] => (db, ([], Next))
  | t :: dbChan' =>
      let '(db', err) := Exec db t in
      match err with
      | Some e =>
          if DEBUG then
            (db', ([EvExec t; EvFatal (pretty (Id t) +:+ " " +:+ e)], Exit))
          else
            let r := range_dbChan dbChan' db' in
            (r.1, prepend [EvExec t;
                           EvLog ("ERROR: torrent " +:+ pretty (Id t)
                                  +:+ ": sql " +:+ e)] r.2)
      | None =>
          let r := range_dbChan dbChan' db' in
          (r.1, prepend [EvExec t] r.2)
      end
  end.

(** [func writer(dbChan, insertQuery, lock)]. *)
Definition writer (dbChan : list Torrent) (db : Store)
  : Store * (list Event * Outcome) :=
  let r := range_dbChan dbChan db in
  match r.2.2 with
  | Next => (r.1, (r.2.1 ++ [EvUnlock], Next))
  | _ => r
  end.

(** ** The dispatcher *)

(** [for i := ...; i <= hi; i++ { ci <- i }; close(ci)], from the test of
    the loop on. *)
Fixpoint dispatch (fuel : nat) (i hi : Z) : list Event * Outcome :=
  match fuel with
  | O => ([], OutOfFuel)
  | S fuel =>
      if i <=? hi then prepend [EvId i] (dispatch fuel (add64 i 1) hi)
      else ([EvClose], Next)
  end.

(** The loop of [main] with its bounds, both computed in [int]. A loop
    that ends makes one turn for each [int] from its lower bound to its
    upper bound, none when the upper bound is below the lower, and then
    the test that fails: the fuel is one more than the turns. When the
    upper bound is the largest [int] the test holds for every [int] and the
    loop has no end, whatever the fuel. *)
Definition dispatcher (startOffset latest : Z) : list Event * Outcome :=
  let i := add64 1 startOffset in
  let hi := add64 latest startOffset in
  dispatch (S (Z.to_nat (hi - i + 1))) i hi.

(** ** Reading a trace *)

Definition sent (evs : list Event) : list Torrent :=
  omap (fun e => if e is EvSend t then Some t else None) evs.

Definition ids (evs : list Event) : list Z :=
  omap (fun e => if e is EvId i then Some i else None) evs.

Definition gets (evs : list Event) : list string :=
  omap (fun e => if e is EvGet u then Some u else None) evs.

Definition sleeps (evs : list Event) : list Z :=
  omap (fun e => if e is EvSleep d then Some d else None) evs.

Definition execs (evs : list Event) : list Torrent :=
  omap (fun e => if e is EvExec t then Some t else None) evs.

Definition logged (evs : list Event) : list string :=
  omap (fun e => if e is EvLog l then Some l else None) evs.

Definition is_unlock (e : Event) : bool :=
  if e is EvUnlock then true else false.

Definition unlocks (evs : list Event) : nat :=
  length (List.filter is_unlock evs).

(** The lines that report a failure: the extraction and insert errors, and
    the abandoned identifiers. *)
Definition is_error_line (l : string) : bool := bytes.HasPrefix l "ERROR:".
Definition is_failed_line (l : string) : bool := bytes.HasPrefix l "Failed".

Definition error_lines (evs : list Event) : list string :=
  List.filter is_error_line (logged evs).
Definition failed_lines (evs : list Event) : list string :=
  List.filter is_failed_line (logged evs).

(** ** One worker, end to end

    [main] from the return of [getLatest] on, with [latest] what it
    returned. Under [DEBUG] that number is logged and replaced by 50000.
    With [runnersNum] = 1 the run is sequential up to scheduling: the one
    worker receives the identifiers in the order of the dispatcher, and the
    writer receives its records in the order they are sent. The result is
    the store and the events of a run that reaches [log.Print("Done.")]
    (the line of [main] under [DEBUG], the events of the dispatcher, then
    those of the worker, then those of the writer), and [None] for a run
    that ends before or has no end. *)
Definition crawl (http : Z -> Z -> Response) (maxTries startOffset latest : Z)
    (db : Store) : option (Store * list Event) :=
  let l := if DEBUG then [EvLog ("Latest was " +:+ pretty latest)] else [] in
  let latest := if DEBUG then 50000 else latest in
  let d := dispatcher startOffset latest in
  let r := runner http maxTries (ids d.1) in
  let w := writer (sent r.1) db in
  match d.2, r.2, w.2.2 with
  | Next, Next, Next =>
      Some (w.1, l ++ d.1 ++ r.1 ++ w.2.1 ++ [EvLog "Done."])
  | _, _, _ => None
  end.

End Pipeline.

(** ** The extractor, field by field

    The specification describes [ParseTorrent] as ten field extractions in a
    fixed order. The definitions below say that in its words, as a table of
    fields and one loop over it; [ParseTorrent] above is the code, and the
    two are compared in the theorems. *)

Inductive Field :=
| FTitle | FCategory | FSize | FSeeders | FLeechers
| FUploaded | FUploader | FFiles_num | FDescription | FMagnet.

#[global] Instance Field_eq_dec : EqDecision Field.
Proof. solve_decision. Defined.

(** The fixed order. *)
Definition fields : list Field :=
  [FTitle; FCategory; FSize; FSeeders; FLeechers;
   FUploaded; FUploader; FFiles_num; FDescription; FMagnet].

Definition numeric (f : Field) : bool :=
  match f with
  | FSize | FSeeders | FLeechers | FFiles_num => true
  | _ => false
  end.

Definition name (f : Field) : string :=
  match f with
  | FTitle => "title" | FCategory => "category" | FSize => "size"
  | FSeeders => "seeders" | FLeechers => "leechers"
  | FUploaded => "uploaded" | FUploader => "uploader"
  | FFiles_num => "files_num" | FDescription => "description"
  | FMagnet => "magnet"
  end.

Definition not_found (f : Field) : string := name f +:+ " not found".
Definition malformed (f : Field) : string := name f +:+ " malformed".

Definition pattern (f : Field) : Regexp :=
  match f with
  | FTitle => regexes.title | FCategory => regexes.category
  | FSize => regexes.size | FSeeders => regexes.seeders
  | FLeechers => regexes.leechers | FUploaded => regexes.uploaded
  | FUploader => regexes.uploader | FFiles_num => regexes.files_num
  | FDescription => regexes.description | FMagnet => regexes.magnet
  end.

(** The value of a field of the record. *)
Inductive Value :=
| VStr (s : string)
| VInt (n : Z)
| VTime (t : Time).

Definition get (f : Field) (t : Torrent) : Value :=
  match f with
  | FTitle => VStr (Title t) | FCategory => VStr (Category t)
  | FSize => VInt (Size t) | FSeeders => VInt (Seeders t)
  | FLeechers => VInt (Leechers t) | FUploaded => VTime (Uploaded t)
  | FUploader => VStr (Uploader t) | FFiles_num => VInt (Files_num t)
  | FDescription => VStr (Description t) | FMagnet => VStr (Magnet t)
  end.

Definition put (f : Field) (v : Value) (t : Torrent) : Torrent :=
  match f, v with
  | FTitle, VStr s => set_Title s t
  | FCategory, VStr s => set_Category s t
  | FSize, VInt n => set_Size n t
  | FSeeders, VInt n => set_Seeders n t
  | FLeechers, VInt n => set_Leechers n t
  | FUploaded, VTime u => set_Uploaded u t
  | FUploader, VStr s => set_Uploader s t
  | FFiles_num, VInt n => set_Files_num n t
  | FDescription, VStr s => set_Description s t
  | FMagnet, VStr s => set_Magnet s t
  | _, _ => t
  end.

(** Whether a conversion returned an error. *)
Definition failed {A} (err : option A) : bool :=
  if err is Some _ then true else false.

Section Fields.

Context `{Library}.

(** The decoding rule of a field, applied to the text of its capture
    group: the value it gives, and whether the conversion reported an
    error. *)
Definition decode (f : Field) (s : string) : Value * bool :=
  match f with
  | FTitle | FCategory => (VStr (html_UnescapeString s), false)
  | FSize =>
      let r := strconv.ParseInt s 64 in (VInt r.1, failed r.2)
  | FSeeders | FLeechers | FFiles_num =>
      let r := strconv.Atoi s in (VInt r.1, failed r.2)
  | FUploaded =>
      let r := time_Parse layout s in (VTime r.1, failed r.2)
  | FUploader | FMagnet => (VStr s, false)
  | FDescription => (VStr (html_UnescapeString (stripTags s)), false)
  end.

(** One field against the whole input: [None] when the pattern does not
    match. *)
Definition extract (f : Field) (data : string) : option (Value * bool) :=
  match FindSubmatch (pattern f) data with
  | None => None
  | Some m => Some (decode f (sub1 m))
  end.

(** The error of one field on its own. *)
Definition field_error (f : Field) (data : string) : error :=
  match extract f data with
  | None => Some (not_found f)
  | Some (_, true) => Some (malformed f)
  | Some (_, false) => None
  end.

(** The error of the first field, in the order given, that has one. *)
Fixpoint first_error (fs : list Field) (data : string) : error :=
  match fs with
  | [] => None
  | f :: fs' =>
      match field_error f data with
      | Some e => Some e
      | None => first_error fs' data
      end
  end.

(** The fields in order, each stored as it is decoded, up to the first
    error. *)
Fixpoint extract_fields (fs : list Field) (data : string) (t : Torrent)
  : Torrent * error :=
  match fs with
  | [] => (t, None)
  | f :: fs' =>
      match extract f data with
      | None => (t, Some (not_found f))
      | Some (v, true) => (put f v t, Some (malformed f))
      | Some (v, false) => extract_fields fs' data (put f v t)
      end
  end.

End Fields.

(** [strings.TrimSpace], for the trimming the specification speaks of; the
    source does not call it. *)
Fixpoint trim_left (s : string) : string :=
  match s with
  | String c s' => if space c then trim_left s' else s
  | EmptyString => EmptyString
  end.

Fixpoint trim_right (s : string) : string :=
  match s with
  | EmptyString => EmptyString
  | String c s' =>
      match trim_right s' with
      | EmptyString => if space c then EmptyString else String c EmptyString
      | r => String c r
      end
  end.

Definition TrimSpace (s : string) : string := trim_right (trim_left s).

(** A failure of the request that the worker retries. *)
Definition retryable (r : Response) : Prop :=
  match r with
  | GetError | ReadError => True
  | Body body => bytes.HasPrefix (contents body) doctype = false
  end.

(** The events of [k] attempts in a row that fail and are retried, after
    [tries] earlier attempts: for each the request, the line under [DEBUG],
    and the sleep. *)
Fixpoint retries (DEBUG : bool) (i tries : Z) (k : nat) : list Event :=
  match k with
  | O => []
  | S k' =>
      (EvGet (url_of i) :: retry_events DEBUG i (tries + 1))
      ++ retries DEBUG i (tries + 1) k'
  end.

(** The inserts of a sequence of records, one after the other: the store
    they leave and the error of each. *)
Fixpoint inserts `{Database} (records : list Torrent) (db : Store)
  : Store * list error :=
  match records with
  | [] => (db, [])
  | t :: records' =>
      let r := Exec db t in
      let rs := inserts records' r.1 in
      (rs.1, r.2 :: rs.2)
  end.

(** The table [Torrents] of [sqlInit], by its primary key [Id]: an insert
    fails when the key is taken. *)
Definition insert_row (db : gmap Z Torrent) (t : Torrent)
  : gmap Z Torrent * error :=
  match db !! Id t with
  | Some _ => (db, Some "UNIQUE constraint failed: Torrents.Id")
  | None => (<[Id t := t]> db, None)
  end.

#[global] Instance Torrents_table : Database :=
  {| Store := gmap Z Torrent; Exec := insert_row |}.

(** ** An instance of the library and documents, for the examples *)

Module basic.

(** Un-escaping restricted to the five entities of [html.EscapeString].
    It is [html.UnescapeString] on text whose ampersands all start one of
    them. [skip] counts the bytes of the current entity still to drop. *)
Fixpoint unescape (skip : nat) (s : string) : string :=
  match s with
  | EmptyString => EmptyString
  | String c s' =>
      match skip with
      | S k => unescape k s'
      | O =>
          if bytes.HasPrefix s "&amp;" then String "&" (unescape 4 s')
          else if bytes.HasPrefix s "&lt;" then String "<" (unescape 3 s')
          else if bytes.HasPrefix s "&gt;" then String ">" (unescape 3 s')
          else if bytes.HasPrefix s "&#34;" then dq +:+ unescape 4 s'
          else if bytes.HasPrefix s "&#39;" then String "'" (unescape 4 s')
          else String c (unescape 0 s')
      end
  end.

Definition UnescapeString (s : string) : string := unescape 0 s.

Definition two (a b : ascii) : option Z :=
  strconv.unsigned (String a (String b EmptyString)).

Definition upper (c : ascii) : bool :=
  let n := nat_of_ascii c in (65 <=? n)%nat && (n <=? 90)%nat.

Definition days_in (y m : Z) : Z :=
  if m =? 2 then
    if (y mod 4 =? 0) && (negb (y mod 100 =? 0) || (y mod 400 =? 0))
    then 29 else 28
  else if (m =? 4) || (m =? 6) || (m =? 9) || (m =? 11) then 30 else 31.

(** Parsing for the one layout of the source, restricted to values of the
    plain shape [YYYY-MM-DD hh:mm:ss ZZZ] with a three-letter zone; every
    other value, and every other layout, is reported as an error. *)
Definition Parse (layout_ value : string) : Time * error :=
  let bad := (zeroTime, Some ("parsing time " +:+ value)) in
  if negb (String.eqb layout_ layout) then bad else
  match value with
  | String y1 (String y2 (String y3 (String y4 (String "-"
    (String m1 (String m2 (String "-" (String d1 (String d2 (String " "
    (String h1 (String h2 (String ":" (String n1 (String n2 (String ":"
    (String s1 (String s2 (String " "
    (String z1 (String z2 (String z3 EmptyString)))))))))))))))))))))) =>
      match strconv.unsigned
              (String y1 (String y2 (String y3 (String y4 EmptyString)))),
            two m1 m2, two d1 d2, two h1 h2, two n1 n2, two s1 s2 with
      | Some y, Some m, Some d, Some h, Some n, Some s =>
          if (1 <=? m) && (m <=? 12) && (1 <=? d) && (d <=? days_in y m)
             && (h <? 24) && (n <? 60) && (s <? 60)
             && upper z1 && upper z2 && upper z3
          then (mkTime y m d h n s
                       (String z1 (String z2 (String z3 EmptyString))), None)
          else bad
      | _, _, _, _, _, _ => bad
      end
  | _ => bad
  end.

End basic.

#[global] Instance basic_library : Library :=
  {| html_UnescapeString := basic.UnescapeString; time_Parse := basic.Parse |}.

(** Documents are written with a backquote where the page has a double
    quote. *)
Fixpoint quoted (s : string) : string :=
  match s with
  | EmptyString => EmptyString
  | String c s' =>
      (if Ascii.eqb c "`" then dq else String c EmptyString) +:+ quoted s'
  end.

Module page.

Definition head_ : string :=
"<!DOCTYPE html PUBLIC `-//W3C//DTD XHTML 1.0 Transitional//EN` `http://www.w3.org/TR/xhtml1/DTD/xhtml1-transitional.dtd`>
<html><head><title>Ubuntu (download torrent) - TPB</title></head><body>
".

Definition title_ : string :=
"<div id=`title`>
	Ubuntu 12.04 &amp; docs</div>
".

Definition category_ : string :=
"<dl class=`col1`>
<dt>Type:</dt>
<dd><a href=`/browse/303` title=`More from this category`>Applications &gt; UNIX</a></dd>
".

Definition files_ : string :=
"<dt>Files:</dt>
<dd><a href=`javascript:void(0);` title=`Files`>1</a></dd>
".

Definition size_ (bytes_ : string) : string :=
"<dt>Size:</dt>
<dd>694.29 MiB (" +:+ bytes_ +:+ "&nbsp;Bytes)</dd>
</dl>
".

Definition uploaded_ : string :=
"<dl class=`col2`>
<dt>Uploaded:</dt>
<dd>2012-04-26 14:03:12 GMT</dd>
".

Definition uploader_ (who : string) : string :=
"<dt>By:</dt>
<dd>
<a href=`/user/ubuntu/` title=`Browse ubuntu`>" +:+ who +:+ "</a></dd>
".

Definition seeders_ : string :=
"<dt>Seeders:</dt>
<dd>120</dd>
".

Definition leechers_ : string :=
"<dt>Leechers:</dt>
<dd>7</dd>
</dl>
".

Definition magnet_ : string :=
"<a href=`magnet:?xt=urn:btih:abc&dn=Ubuntu` title=`Get this torrent`>Get this torrent</a>
".

Definition nfo_ : string :=
"<div class=`nfo`>
<pre>  Ubuntu <b>12.04</b> LTS &lt;desktop&gt;
</pre>
</div>
</body></html>".

(** A page with all ten fields. *)
Definition full : string :=
  quoted (head_ +:+ title_ +:+ category_ +:+ files_ +:+ size_ "728018944"
          +:+ uploaded_ +:+ uploader_ "ubuntu" +:+ seeders_ +:+ leechers_
          +:+ magnet_ +:+ nfo_).

(** The same page without its seeders. *)
Definition no_seeders : string :=
  quoted (head_ +:+ title_ +:+ category_ +:+ files_ +:+ size_ "728018944"
          +:+ uploaded_ +:+ uploader_ "ubuntu" +:+ leechers_
          +:+ magnet_ +:+ nfo_).

(** The same page with a size beyond 64 bits. *)
Definition huge_size : string :=
  quoted (head_ +:+ title_ +:+ category_ +:+ files_
          +:+ size_ "99999999999999999999"
          +:+ uploaded_ +:+ uploader_ "ubuntu" +:+ seeders_ +:+ leechers_
          +:+ magnet_ +:+ nfo_).

(** The same page with an entity in the name of the uploader. *)
Definition entity_uploader : string :=
  quoted (head_ +:+ title_ +:+ category_ +:+ files_ +:+ size_ "728018944"
          +:+ uploaded_ +:+ uploader_ "R&amp;D" +:+ seeders_ +:+ leechers_
          +:+ magnet_ +:+ nfo_).

(** The page the site answers for an identifier it does not have. *)
Definition not_found_page : string :=
  quoted ("<!DOCTYPE html PUBLIC `-//W3C//DTD XHTML 1.0 Transitional//EN` `http://www.w3.org/TR/xhtml1/DTD/xhtml1-transitional.dtd`>
<html xmlns=`http://www.w3.org/1999/xhtml`><head>
" +:+ notFoundText +:+ "
</head><body><h2>Not Found (aka 404)</h2>
<p>You're looking for something that does not, has not, will not, might not or must not exist.</p>
</body></html>").

(** A page that is only the document type, in a buffer of 512 bytes as
    [ioutil.ReadAll] allocates it. *)
Definition short_body : Slice :=
  mkSlice (doctype +:+ string_of_list_ascii (repeat Ascii.zero 491))
          (String.length doctype).

End page.

(** The runs of the examples. *)
Module run.

(** The network that answers every request with the same body, read into
    a buffer with no spare capacity. *)
Definition always (page : string) : Z -> Z -> Response :=
  fun _ _ => Body (exact_slice page).

(** The network that is down. *)
Definition down : Z -> Z -> Response := fun _ _ => GetError.

Definition uploaded : Time := mkTime 2012 4 26 14 3 12 "GMT".

(** The record of [page.full] for identifier 1. *)
Definition full_record : Torrent :=
  mkTorrent 1 "Ubuntu 12.04 & docs" "Applications > UNIX" 728018944 120 7
    uploaded "ubuntu" 1
    ("  Ubuntu 12.04 LTS <desktop>" +:+ String (ascii_of_nat 10) EmptyString)
    "magnet:?xt=urn:btih:abc&dn=Ubuntu".

(** What [ParseTorrent] leaves of it on [page.no_seeders]. *)
Definition partial_record : Torrent :=
  mkTorrent 1 "Ubuntu 12.04 & docs" "Applications > UNIX" 728018944 0 0
    zeroTime EmptyString 0 EmptyString EmptyString.

Definition url1 : string := "https://thepiratebay.se/torrent/1".

End run.

(** ** What a match is

    The words that a pattern matches, with the state of the match before
    and after the word. It is what [backtrack] finds when it succeeds, and
    lets the submatches of [FindSubmatch] be read without running the
    matcher. *)
Inductive matches : Regexp -> string -> Pos -> Pos -> Prop :=
| matches_nil p :
    matches [] EmptyString p p
| matches_chr c re w p r :
    matches re w (step p) r -> matches (Chr c :: re) (String c w) p r
| matches_cls cl c re w p r :
    cl c = true ->
    matches re w (step p) r -> matches (Cls cl :: re) (String c w) p r
| matches_rep_stop cl greedy re w p r :
    matches re w p r -> matches (Rep cl greedy :: re) w p r
| matches_rep_more cl greedy re c w p r :
    cl c = true ->
    matches (Rep cl greedy :: re) w (step p) r ->
    matches (Rep cl greedy :: re) (String c w) p r
| matches_open re w p r :
    matches re w (mkPos (at_ p) (at_ p) (gend p)) r ->
    matches (GroupOpen :: re) w p r
| matches_close re w p r :
    matches re w (mkPos (at_ p) (gstart p) (at_ p)) r ->
    matches (GroupClose :: re) w p r.

(** The words of a pattern. *)
Definition lang (re : Regexp) (w : string) : Prop :=
  exists p r, matches re w p r.

(** A pattern without group marks. *)
Definition flat (re : Regexp) : bool :=
  forallb (fun a => match a with
                    | GroupOpen | GroupClose => false
                    | _ => true
                    end) re.

(** Every byte of [s] is in the class. *)
Fixpoint all_in (cl : ascii -> bool) (s : string) : bool :=
  match s with
  | EmptyString => true
  | String c s' => cl c && all_in cl s'
  end.

(** The three parts of the patterns of the source: before the group, the
    group, after the group. *)
Definition grouped (before group after : Regexp) : Regexp :=
  before ++ GroupOpen :: group ++ GroupClose :: after.

(** The events of the loop body: the worker does not close a channel, does
    not touch the store and does not signal the wait group there. *)
Definition loop_event (e : Event) : Prop :=
  match e with
  | EvLog _ | EvFatal _ | EvGet _ | EvSleep _ | EvSend _ | EvPanic => True
  | _ => False
  end.

(** ** The start of [main] *)

(** [torrentLink] of [getLatest], the pattern of a link to a torrent with
    the digits of its identifier as the group. *)
Definition torrentLink : Regexp :=
  lit ("<a href=" +:+ dq +:+ "/torrent/")
  ++ [GroupOpen] ++ plus digit true ++ [GroupClose] ++ lit "/".

(** [func getLatest() int], from what [http.Get] and [ioutil.ReadAll] give
    for the page of recent torrents. [None]: [log.Fatal] has ended the
    process. The error of [strconv.Atoi] is dropped, its value is kept. *)
Definition getLatest (recent : Response) : option Z :=
  match recent with
  | GetError => None
  | ReadError => None
  | Body body =>
      match FindSubmatch torrentLink (contents body) with
      | None => None
      | Some latestMatch => Some (strconv.Atoi (sub1 latestMatch)).1
      end
  end.

(** [func parseArgs() (maxTries int, runnersNum int, startOffset int)] on
    [os.Args]. [None]: [log.Fatal] with the usage line has ended the
    process. *)
Definition parseArgs (Args : list string) : option (Z * Z * Z) :=
  if (length Args <? 3)%nat then None else
  let '(runnersNum, err) := strconv.Atoi (nth 1 Args EmptyString) in
  if err is Some _ then None else
  let '(maxTries, err) := strconv.Atoi (nth 2 Args EmptyString) in
  if err is Some _ then None else
  if (3 <? length Args)%nat then
    let '(startOffset, err) := strconv.Atoi (nth 3 Args EmptyString) in
    if err is Some _ then None else
    Some (maxTries, runnersNum, startOffset)
  else
    Some (maxTries, runnersNum, 0).

(** ** Tags

    What [stripTagsRegexp] matches at the start of a string: a [<], one
    byte, and a [>] somewhere after it. *)
Fixpoint has_gt (s : string) : bool :=
  match s with
  | EmptyString => false
  | String c s' => Ascii.eqb ">" c || has_gt s'
  end.

Definition tag_start (s : string) : bool :=
  match s with
  | String c (String _ s') => Ascii.eqb "<" c && has_gt s'
  | _ => false
  end.

(** No tag starts anywhere in the string. *)
Fixpoint tagless (s : string) : bool :=
  match s with
  | EmptyString => true
  | String _ s' => negb (tag_start s) && tagless s'
  end.

(** The first byte is a decimal digit. *)
Definition starts_with_digit (s : string) : bool :=
  match s with
  | String c _ => digit c
  | EmptyString => false
  end.

(** A page of recent torrents, newest first. *)
Definition recent_page : string :=
  quoted "<!DOCTYPE html PUBLIC `-//W3C//DTD XHTML 1.0 Transitional//EN`>
<html><body><table id=`searchResult`>
<tr><td><a href=`/torrent/7211054/Ubuntu_12.04` class=`detLink`>Ubuntu 12.04</a></td></tr>
<tr><td><a href=`/torrent/7211053/Debian_6` class=`detLink`>Debian 6</a></td></tr>
</table></body></html>".

(** * Properties *)

(** ** 64-bit arithmetic *)

Lemma wrap64_id z : in_int64 z -> wrap64 z = z.
Proof.
  unfold in_int64, wrap64, MinInt64, MaxInt64. intros Hz.
  rewrite Z.mod_small by lia. lia.
Qed.

Lemma add64_succ z : MinInt64 <= z < MaxInt64 -> add64 z 1 = z + 1.
Proof.
  unfold add64, MinInt64, MaxInt64. intros Hz.
  apply wrap64_id. unfold in_int64, MinInt64, MaxInt64. lia.
Qed.

(** ** The extractor *)

Section ExtractorFacts.

Context `{Library}.

(** The code is the loop over the table of fields. *)
Lemma ParseTorrent_extract_fields data t :
  ParseTorrent data t = extract_fields fields data t.
Proof.
  unfold ParseTorrent, fields, extract_fields, extract.
  cbn [pattern decode]. unfold strconv.Atoi.
  repeat
    (first
       [ reflexivity
       | match goal with
         | |- context [FindSubmatch ?re data] =>
             destruct (FindSubmatch re data) as [?m|]; cbn [put]
         | |- context [strconv.ParseInt ?s ?n] =>
             destruct (strconv.ParseInt s n) as [?v [?e|]]; cbn [failed fst snd put]
         | |- context [time_Parse ?l ?s] =>
             destruct (time_Parse l s) as [?v [?e|]]; cbn [failed fst snd put]
         end ]).
Qed.

Lemma extract_fields_error fs data t :
  (extract_fields fs data t).2 = first_error fs data.
Proof.
  revert t. induction fs as [|f fs IH]; intros t; [reflexivity|].
  cbn [extract_fields first_error]. unfold field_error.
  destruct (extract f data) as [[v [|]]|]; auto.
Qed.

Lemma first_error_Some fs data e :
  first_error fs data = Some e <->
  exists pre f post, fs = pre ++ f :: post
    /\ (forall g, g ∈ pre -> field_error g data = None)
    /\ field_error f data = Some e.
Proof.
  induction fs as [|f fs IH]; cbn [first_error].
  - split; [discriminate|]. intros (pre & g & post & Heq & _).
    destruct pre; discriminate.
  - destruct (field_error f data) as [e'|] eqn:Hf.
    + split.
      * intros [= ->]. exists [], f, fs. split_and!; [done| |done].
        intros g Hg. by apply elem_of_nil in Hg.
      * intros (pre & g & post & Heq & Hpre & Hg).
        destruct pre as [|p pre]; simplify_eq/=; [congruence|].
        rewrite Hpre in Hf by left. discriminate.
    + rewrite IH. split.
      * intros (pre & g & post & -> & Hpre & Hg).
        exists (f :: pre), g, post. split_and!; [done| |done].
        intros g' [->|Hin]%elem_of_cons; auto.
      * intros (pre & g & post & Heq & Hpre & Hg).
        destruct pre as [|p pre]; simplify_eq/=.
        exists pre, g, post. split_and!; [done| |done].
        intros g' Hin. apply Hpre. by right.
Qed.

Lemma first_error_None fs data :
  first_error fs data = None <->
  forall g, g ∈ fs -> field_error g data = None.
Proof.
  induction fs as [|f fs IH]; cbn [first_error].
  - split; [|done]. intros _ g Hg. by apply elem_of_nil in Hg.
  - destruct (field_error f data) as [e'|] eqn:Hf.
    + split; [discriminate|]. intros Hall.
      rewrite Hall in Hf by left. discriminate.
    + rewrite IH. split.
      * intros Hall g [->|Hin]%elem_of_cons; auto.
      * intros Hall g Hin. apply Hall. by right.
Qed.

(** The record: what a store into one field does to the others. *)
Lemma Id_put f v t : Id (put f v t) = Id t.
Proof. by destruct f, v. Qed.

Lemma get_put_ne f g v t : f <> g -> get g (put f v t) = get g t.
Proof. by destruct f, v, g. Qed.

Lemma get_put_decode f s t : get f (put f (decode f s).1 t) = (decode f s).1.
Proof. by destruct f. Qed.

Lemma get_put_extract f data v b t :
  extract f data = Some (v, b) -> get f (put f v t) = v.
Proof.
  unfold extract. destruct (FindSubmatch _ _) as [m|]; [|discriminate].
  intros [= Hd]. pose proof (get_put_decode f (sub1 m) t) as Hg.
  by rewrite Hd in Hg.
Qed.

Lemma extract_fields_Id fs data t : Id (extract_fields fs data t).1 = Id t.
Proof.
  revert t. induction fs as [|f fs IH]; intros t; [reflexivity|].
  cbn [extract_fields]. destruct (extract f data) as [[v [|]]|]; cbn [fst].
  - apply Id_put.
  - rewrite IH. apply Id_put.
  - reflexivity.
Qed.

(** A field that is not in the list is not written. *)
Lemma extract_fields_get_notin fs data t g :
  g ∉ fs -> get g (extract_fields fs data t).1 = get g t.
Proof.
  revert t. induction fs as [|f fs IH]; intros t Hg; [reflexivity|].
  apply not_elem_of_cons in Hg as [Hne Hg].
  cbn [extract_fields]. destruct (extract f data) as [[v [|]]|]; cbn [fst].
  - by apply get_put_ne.
  - rewrite IH by done. by apply get_put_ne.
  - reflexivity.
Qed.

(** What the record holds when the extraction stops with an error. *)
Lemma extract_fields_stop fs data t t' e :
  NoDup fs ->
  extract_fields fs data t = (t', Some e) ->
  exists pre f post, fs = pre ++ f :: post
    /\ (forall g, g ∈ pre ->
          exists v, extract g data = Some (v, false) /\ get g t' = v)
    /\ (forall g, g ∉ pre -> g <> f -> get g t' = get g t)
    /\ ((e = not_found f /\ extract f data = None /\ get f t' = get f t)
        \/ (e = malformed f /\
            exists v, extract f data = Some (v, true) /\ get f t' = v)).
Proof.
  revert t. induction fs as [|f fs IH]; intros t Hnd; [discriminate|].
  apply NoDup_cons in Hnd as [Hf Hnd]. cbn [extract_fields].
  destruct (extract f data) as [[v [|]]|] eqn:Hx.
  - intros [= <- <-]. exists [], f, fs. split_and!; [done| | |].
    + intros g Hg. by apply elem_of_nil in Hg.
    + intros g _ Hne. by apply get_put_ne.
    + right. split; [done|]. exists v. split; [done|].
      by eapply get_put_extract.
  - intros Hrun. destruct (IH _ Hnd Hrun)
      as (pre & g & post & -> & Hpre & Hframe & Hstop).
    assert ((f ∉ pre) /\ f <> g) as [Hfpre Hfg].
    { rewrite elem_of_app, elem_of_cons in Hf. split; intros ?; apply Hf; auto. }
    exists (f :: pre), g, post. split_and!; [done| | |].
    + intros g' [->|Hin]%elem_of_cons; [|by apply Hpre].
      exists v. split; [done|].
      rewrite Hframe by done. by eapply get_put_extract.
    + intros g' [Hne Hnot]%not_elem_of_cons Hg'.
      rewrite Hframe by done. by apply get_put_ne.
    + destruct Hstop as [(-> & Hnone & Hget)|(-> & w & Hw & Hget)].
      * left. split_and!; [done..|].
        rewrite Hget. by apply get_put_ne.
      * right. split; [done|]. by exists w.
  - intros [= <- <-]. exists [], f, fs. split_and!; [done| |done|].
    + intros g Hg. by apply elem_of_nil in Hg.
    + left. done.
Qed.

Lemma NoDup_fields : NoDup fields.
Proof. compute_done. Qed.

(** What the record holds when every field is extracted. *)
Lemma extract_fields_all fs data t t' :
  NoDup fs ->
  extract_fields fs data t = (t', None) ->
  forall g, g ∈ fs ->
    exists v, extract g data = Some (v, false) /\ get g t' = v.
Proof.
  revert t. induction fs as [|f fs IH]; intros t Hnd Hrun g Hg.
  { by apply elem_of_nil in Hg. }
  apply NoDup_cons in Hnd as [Hf Hnd]. cbn [extract_fields] in Hrun.
  destruct (extract f data) as [[v [|]]|] eqn:Hx; [discriminate| |discriminate].
  apply elem_of_cons in Hg as [->|Hg]; [|by eapply IH].
  exists v. split; [done|].
  pose proof (extract_fields_get_notin fs data (put f v t) f Hf) as Hget.
  rewrite Hrun in Hget. cbn [fst] in Hget. rewrite Hget.
  by eapply get_put_extract.
Qed.

(** C5: extraction attempts the ten fields in the fixed order title,
    category, size, seeders, leechers, uploaded, uploader, files_num,
    description, magnet, each by a match of its own pattern against the
    same input. The error returned is the error of the first field in
    that order that is missing or malformed (all fields before it are
    fine), there is no error exactly when no field has one, and for a
    numeric field a match whose text does not convert gives the field's
    malformed error, which differs from its not-found error. *)
Theorem ParseTorrent_first_failing_field data t :
  (forall e, (ParseTorrent data t).2 = Some e <->
     exists pre f post, fields = pre ++ f :: post
       /\ (forall g, g ∈ pre -> field_error g data = None)
       /\ field_error f data = Some e)
  /\ ((ParseTorrent data t).2 = None <->
       forall g, g ∈ fields -> field_error g data = None)
  /\ (forall pre f post m, fields = pre ++ f :: post ->
        numeric f = true ->
        (forall g, g ∈ pre -> field_error g data = None) ->
        FindSubmatch (pattern f) data = Some m ->
        (decode f (sub1 m)).2 = true ->
        (ParseTorrent data t).2 = Some (malformed f)
        /\ malformed f <> not_found f).
Proof.
  rewrite ParseTorrent_extract_fields, extract_fields_error.
  split_and!.
  - intros e. apply first_error_Some.
  - apply first_error_None.
  - intros pre f post m Heq Hnum Hpre Hm Hbad. split; [|by destruct f].
    apply first_error_Some. exists pre, f, post. split_and!; [done..|].
    unfold field_error, extract. rewrite Hm.
    destruct (decode f (sub1 m)) as [v b]. cbn [snd] in Hbad. by subst b.
Qed.

(** C10, amended: when [ParseTorrent] returns an error, it is the error of
    one field of the fixed order; [Id] is as before the call, every field
    earlier in the order holds its extracted value, and every later field
    is as before the call. The field itself is as before the call when the
    error is its not-found error; when the error is its malformed error,
    the field has been overwritten with the value that the failed
    conversion returned. *)
Theorem ParseTorrent_error_frame data t t' e :
  ParseTorrent data t = (t', Some e) ->
  Id t' = Id t
  /\ exists pre f post, fields = pre ++ f :: post
    /\ (forall g, g ∈ pre ->
          exists v, extract g data = Some (v, false) /\ get g t' = v)
    /\ (forall g, g ∈ post -> get g t' = get g t)
    /\ ((e = not_found f /\ extract f data = None /\ get f t' = get f t)
        \/ (e = malformed f /\
            exists v, extract f data = Some (v, true) /\ get f t' = v)).
Proof.
  rewrite ParseTorrent_extract_fields. intros Hrun. split.
  - pose proof (extract_fields_Id fields data t) as HId.
    by rewrite Hrun in HId.
  - destruct (extract_fields_stop _ _ _ _ _ NoDup_fields Hrun)
      as (pre & f & post & Heq & Hpre & Hframe & Hstop).
    exists pre, f, post. split_and!; [done..| |done].
    intros g Hg. pose proof NoDup_fields as Hnd. rewrite Heq in Hnd.
    apply NoDup_app in Hnd as (_ & Hdisj & Hnd).
    apply NoDup_cons in Hnd as [Hf _].
    apply Hframe.
    + intros Hin. apply (Hdisj g Hin). by right.
    + intros ->. done.
Qed.

(** C3, amended: in a record that is extracted without error, the title
    and the category are the text matched by their patterns with the
    entities un-escaped; the description is the matched text with the tags
    cut out and then un-escaped, with no trimming; the uploader is the
    matched text as it is, not un-escaped. *)
Theorem ParseTorrent_textual_fields data t t' :
  ParseTorrent data t = (t', None) ->
  exists mt mc mu md,
    FindSubmatch regexes.title data = Some mt
    /\ Title t' = html_UnescapeString (sub1 mt)
    /\ FindSubmatch regexes.category data = Some mc
    /\ Category t' = html_UnescapeString (sub1 mc)
    /\ FindSubmatch regexes.uploader data = Some mu
    /\ Uploader t' = sub1 mu
    /\ FindSubmatch regexes.description data = Some md
    /\ Description t' = html_UnescapeString (stripTags (sub1 md)).
Proof.
  rewrite ParseTorrent_extract_fields. intros Hrun.
  pose proof (extract_fields_all _ _ _ _ NoDup_fields Hrun) as Hall.
  destruct (Hall FTitle) as (vt & Ht & Hgt); [compute_done|].
  destruct (Hall FCategory) as (vc & Hc & Hgc); [compute_done|].
  destruct (Hall FUploader) as (vu & Hu & Hgu); [compute_done|].
  destruct (Hall FDescription) as (vd & Hd & Hgd); [compute_done|].
  unfold extract in Ht, Hc, Hu, Hd. cbn [pattern] in Ht, Hc, Hu, Hd.
  destruct (FindSubmatch regexes.title data) as [mt|]; [|discriminate].
  destruct (FindSubmatch regexes.category data) as [mc|]; [|discriminate].
  destruct (FindSubmatch regexes.uploader data) as [mu|]; [|discriminate].
  destruct (FindSubmatch regexes.description data) as [md|]; [|discriminate].
  cbn [decode get] in *. simplify_eq.
  exists mt, mc, mu, md. split_and!; congruence.
Qed.

End ExtractorFacts.

(** ** Strings *)

Lemma HasPrefix_app a b sep :
  bytes.HasPrefix a sep = true -> bytes.HasPrefix (a +:+ b) sep = true.
Proof.
  revert sep. induction a as [|c a IH]; intros [|p sep]; cbn; try done.
  - by destruct b.
  - intros [Hc Ha]%andb_prop.
    change (String c a +:+ b) with (String c (a +:+ b)). cbn.
    by rewrite Hc, IH.
Qed.

Lemma index_from_eq n s sep :
  bytes.index_from n s sep
  = if bytes.HasPrefix s sep then n
    else match s with
         | EmptyString => -1
         | String _ s' => bytes.index_from (n + 1) s' sep
         end.
Proof. by destruct s. Qed.

Lemma index_from_app n a b sep :
  0 <= n ->
  0 <= bytes.index_from n a sep -> 0 <= bytes.index_from n (a +:+ b) sep.
Proof.
  revert n. induction a as [|c a IH]; intros n Hn.
  - change (EmptyString +:+ b) with b. rewrite !index_from_eq.
    destruct (bytes.HasPrefix EmptyString sep) eqn:Hp; [|lia].
    intros _. apply (HasPrefix_app _ b) in Hp.
    change (EmptyString +:+ b) with b in Hp. by rewrite Hp.
  - change (String c a +:+ b) with (String c (a +:+ b)).
    rewrite !(index_from_eq n (String c _)).
    destruct (bytes.HasPrefix (String c a) sep) eqn:Hp.
    + intros _. apply (HasPrefix_app _ b) in Hp.
      change (String c a +:+ b) with (String c (a +:+ b)) in Hp.
      by rewrite Hp.
    + intros Hi. destruct (bytes.HasPrefix (String c (a +:+ b)) sep); [done|].
      apply IH; [lia|done].
Qed.

(** The first [n] bytes of a prefix of [s] start the first [n] bytes of
    [s]. *)
Lemma substring_prefix s n m :
  exists rest, substring 0 n s = substring 0 n (substring 0 m s) +:+ rest.
Proof.
  revert n m. induction s as [|c s IH]; intros n m.
  - exists EmptyString. by destruct n, m.
  - destruct n as [|n]; [exists EmptyString; by destruct m|].
    destruct m as [|m]; cbn [substring].
    + by exists (String c (substring 0 n s)).
    + destruct (IH n m) as [rest Hrest]. exists rest.
      change (String c ?x +:+ rest) with (String c (x +:+ rest)).
      by rewrite <-Hrest.
Qed.

(** A marker found in the first 300 bytes of the body is found in the
    window [body[:300]]. *)
Lemma window_finds body sep w :
  reslice body 300 = Some w ->
  0 <= bytes.Index (substring 0 300 (contents body)) sep ->
  0 <= bytes.Index w sep.
Proof.
  unfold reslice, contents. destruct (300 <=? cap body)%nat; [|discriminate].
  intros [= <-]. destruct (substring_prefix (backing body) 300 (len body))
    as [rest ->].
  by apply index_from_app.
Qed.

(** ** Traces *)

(** An event is not in a list of events with other constructors. *)
Ltac not_in_list :=
  let Hin := fresh "Hin" in
  intros Hin;
  repeat (apply elem_of_cons in Hin as [Hin|Hin]; [discriminate Hin|]);
  by apply elem_of_nil in Hin.

Lemma prepend_fst evs r : (prepend evs r).1 = evs ++ r.1.
Proof. reflexivity. Qed.

Lemma prepend_snd evs r : (prepend evs r).2 = r.2.
Proof. reflexivity. Qed.

Lemma gets_app a b : gets (a ++ b) = gets a ++ gets b.
Proof. apply omap_app. Qed.

Lemma sent_app a b : sent (a ++ b) = sent a ++ sent b.
Proof. apply omap_app. Qed.

Lemma sleeps_app a b : sleeps (a ++ b) = sleeps a ++ sleeps b.
Proof. apply omap_app. Qed.

Lemma logged_app a b : logged (a ++ b) = logged a ++ logged b.
Proof. apply omap_app. Qed.

Lemma execs_app a b : execs (a ++ b) = execs a ++ execs b.
Proof. apply omap_app. Qed.

Lemma unlocks_app a b : unlocks (a ++ b) = (unlocks a + unlocks b)%nat.
Proof. unfold unlocks. by rewrite List.filter_app, length_app. Qed.

Lemma error_lines_app a b : error_lines (a ++ b) = error_lines a ++ error_lines b.
Proof. unfold error_lines. by rewrite logged_app, List.filter_app. Qed.

Lemma failed_lines_app a b :
  failed_lines (a ++ b) = failed_lines a ++ failed_lines b.
Proof. unfold failed_lines. by rewrite logged_app, List.filter_app. Qed.

(** ** The worker *)

Section WorkerFacts.

Context `{Library}.
Variable DEBUG : bool.
Variable http : Z -> Z -> Response.
Variable maxTries : Z.

Local Abbreviation start' := (start DEBUG http maxTries).
Local Abbreviation deliver' := (deliver DEBUG).
Local Abbreviation retry_events' := (retry_events DEBUG).

Lemma gets_retry_events i n : gets (retry_events' i n) = [].
Proof. unfold retry_events. by destruct DEBUG. Qed.

Lemma sent_retry_events i n : sent (retry_events' i n) = [].
Proof. unfold retry_events. by destruct DEBUG. Qed.

Lemma sleeps_retry_events i n : sleeps (retry_events' i n) = [mul64 n Second].
Proof. unfold retry_events. by destruct DEBUG. Qed.

Lemma gets_deliver i r : gets (deliver' i r).1 = [].
Proof. unfold deliver. by destruct r.2, DEBUG. Qed.

Lemma deliver_fuel i r : (deliver' i r).2 <> OutOfFuel.
Proof. unfold deliver. by destruct r.2, DEBUG. Qed.

Lemma gets_prepend_retry i n r :
  gets (prepend (EvGet (url_of i) :: retry_events' i n) r).1
  = url_of i :: gets r.1.
Proof.
  rewrite prepend_fst, gets_app.
  change (gets (EvGet (url_of i) :: retry_events' i n))
    with (url_of i :: gets (retry_events' i n)).
  by rewrite gets_retry_events.
Qed.

(** A retryable failure on attempt [tries + 1]. *)
Lemma start_retry fuel i tries :
  0 <= tries < maxTries -> tries < MaxInt64 ->
  retryable (http i (tries + 1)) ->
  start' (S fuel) i tries
  = prepend (EvGet (url_of i) :: retry_events' i (tries + 1))
            (start' fuel i (tries + 1)).
Proof.
  intros Ht Hm Hr. cbn [start].
  rewrite add64_succ by (unfold MinInt64; lia).
  destruct (Z.ltb_spec maxTries (tries + 1)); [lia|].
  destruct (http i (tries + 1)) as [| |body]; [done..|].
  cbn in Hr. by rewrite Hr.
Qed.

(** A body that starts with the document type, on attempt [tries + 1]. *)
Lemma start_body fuel i tries body :
  0 <= tries < maxTries -> tries < MaxInt64 ->
  http i (tries + 1) = Body body ->
  bytes.HasPrefix (contents body) doctype = true ->
  start' (S fuel) i tries
  = match reslice body 300 with
    | None => ([EvGet (url_of i); EvPanic], Exit)
    | Some window =>
        if 0 <=? bytes.Index window notFoundText then
          ([EvGet (url_of i)], Next)
        else
          prepend [EvGet (url_of i)]
            (deliver' i (ParseTorrent (contents body) (set_Id i new_Torrent)))
    end.
Proof.
  intros Ht Hm Hb Hp. cbn [start].
  rewrite add64_succ by (unfold MinInt64; lia).
  destruct (Z.ltb_spec maxTries (tries + 1)); [lia|].
  by rewrite Hb, Hp.
Qed.

(** The attempts are used up. *)
Lemma start_abandon fuel i tries :
  0 <= tries < MaxInt64 -> maxTries <= tries ->
  start' (S fuel) i tries
  = if DEBUG then ([EvFatal ("Failed torrent " +:+ pretty i)], Exit)
    else ([EvLog ("Failed torrent " +:+ pretty i)], Next).
Proof.
  intros Ht Hm. cbn [start].
  rewrite add64_succ by (unfold MinInt64; lia).
  destruct (Z.ltb_spec maxTries (tries + 1)); [done|lia].
Qed.

(** From [tries] on there are at most [maxTries - tries] requests. *)
Lemma start_gets_bound fuel i tries :
  0 <= tries < MaxInt64 -> maxTries < MaxInt64 ->
  (length (gets (start' fuel i tries).1) <= Z.to_nat (maxTries - tries))%nat.
Proof.
  revert tries. induction fuel as [|fuel IH]; intros tries Ht Hm.
  { cbn. lia. }
  destruct (Z_lt_le_dec tries maxTries) as [Hlt|Hge].
  - assert (length (gets (start' fuel i (tries + 1)).1)
            <= Z.to_nat (maxTries - (tries + 1)))%nat as IH' by (apply IH; lia).
    assert (S (Z.to_nat (maxTries - (tries + 1))) = Z.to_nat (maxTries - tries))
      as Hs by lia.
    destruct (http i (tries + 1)) as [| |body] eqn:Hresp.
    + rewrite start_retry by (rewrite ?Hresp; done || lia).
      rewrite gets_prepend_retry. cbn [length]. lia.
    + rewrite start_retry by (rewrite ?Hresp; done || lia).
      rewrite gets_prepend_retry. cbn [length]. lia.
    + destruct (bytes.HasPrefix (contents body) doctype) eqn:Hp.
      * rewrite (start_body _ _ _ body) by (done || lia).
        destruct (reslice body 300) as [w|]; [|cbn; lia].
        destruct (0 <=? bytes.Index w notFoundText); [cbn; lia|].
        rewrite prepend_fst, gets_app, gets_deliver. cbn. lia.
      * rewrite start_retry by (rewrite ?Hresp; done || lia).
        rewrite gets_prepend_retry. cbn [length]. lia.
  - rewrite start_abandon by lia.
    destruct DEBUG; cbn; lia.
Qed.

(** The fuel of [process] is enough. *)
Lemma start_fuel fuel i tries :
  0 <= tries < MaxInt64 -> maxTries < MaxInt64 ->
  (Z.to_nat (maxTries - tries) < fuel)%nat ->
  (start' fuel i tries).2 <> OutOfFuel.
Proof.
  revert tries. induction fuel as [|fuel IH]; intros tries Ht Hm Hf; [lia|].
  destruct (Z_lt_le_dec tries maxTries) as [Hlt|Hge].
  - assert ((start' fuel i (tries + 1)).2 <> OutOfFuel) as IH'
        by (apply IH; lia).
    destruct (http i (tries + 1)) as [| |body] eqn:Hresp.
    + by rewrite start_retry by (rewrite ?Hresp; done || lia).
    + by rewrite start_retry by (rewrite ?Hresp; done || lia).
    + destruct (bytes.HasPrefix (contents body) doctype) eqn:Hp.
      * rewrite (start_body _ _ _ body) by (done || lia).
        destruct (reslice body 300) as [w|]; [|done].
        destruct (0 <=? bytes.Index w notFoundText); [done|].
        rewrite prepend_snd. apply deliver_fuel.
      * by rewrite start_retry by (rewrite ?Hresp; done || lia).
  - rewrite start_abandon by lia.
    by destruct DEBUG.
Qed.

Lemma sent_prepend_retry i n r :
  sent (prepend (EvGet (url_of i) :: retry_events' i n) r).1 = sent r.1.
Proof.
  rewrite prepend_fst, sent_app.
  change (sent (EvGet (url_of i) :: retry_events' i n))
    with (sent (retry_events' i n)).
  by rewrite sent_retry_events.
Qed.

Lemma sleeps_prepend_retry i n r :
  sleeps (prepend (EvGet (url_of i) :: retry_events' i n) r).1
  = mul64 n Second :: sleeps r.1.
Proof.
  rewrite prepend_fst, sleeps_app.
  change (sleeps (EvGet (url_of i) :: retry_events' i n))
    with (sleeps (retry_events' i n)).
  by rewrite sleeps_retry_events.
Qed.

Lemma deliver_no_panic i r : EvPanic ∉ (deliver' i r).1.
Proof. unfold deliver. destruct r.2, DEBUG; cbn; not_in_list. Qed.

(** [k] failed attempts in a row. *)
Lemma start_retries k : forall fuel i tries,
  0 <= tries -> tries + Z.of_nat k <= maxTries -> maxTries <= MaxInt64 ->
  (forall n, tries < n <= tries + Z.of_nat k -> retryable (http i n)) ->
  start' (k + fuel) i tries
  = prepend (retries DEBUG i tries k) (start' fuel i (tries + Z.of_nat k)).
Proof.
  induction k as [|k IH]; intros fuel i tries Ht Hk Hm Hfail.
  - cbn [retries Nat.add]. rewrite Z.add_0_r. by destruct (start' fuel i tries).
  - cbn [Nat.add retries].
    rewrite start_retry by (try apply Hfail; lia).
    rewrite IH by (try (intros n Hn; apply Hfail); lia).
    unfold prepend. cbn [fst snd]. rewrite <-app_assoc.
    by replace (tries + 1 + Z.of_nat k) with (tries + Z.of_nat (S k)) by lia.
Qed.

(** The worker up to the attempt after [k] failed ones. *)
Lemma process_retries i k :
  Z.of_nat k < maxTries -> maxTries <= MaxInt64 ->
  (forall n, 1 <= n <= Z.of_nat k -> retryable (http i n)) ->
  process DEBUG http maxTries i
  = prepend (retries DEBUG i 0 k)
            (start' (S (Z.to_nat maxTries - k)) i (Z.of_nat k)).
Proof.
  intros Hk Hm Hfail. unfold process.
  replace (S (Z.to_nat maxTries)) with (k + S (Z.to_nat maxTries - k))%nat
    by lia.
  rewrite start_retries; [done|lia..|].
  intros n Hn. apply Hfail. lia.
Qed.

Lemma sent_retries i tries k : sent (retries DEBUG i tries k) = [].
Proof.
  revert tries. induction k as [|k IH]; intros tries; [done|].
  cbn [retries]. rewrite sent_app, IH.
  change (sent (EvGet (url_of i) :: retry_events' i (tries + 1)))
    with (sent (retry_events' i (tries + 1))).
  by rewrite sent_retry_events.
Qed.

Lemma gets_retries i tries k :
  length (gets (retries DEBUG i tries k)) = k.
Proof.
  revert tries. induction k as [|k IH]; intros tries; [done|].
  cbn [retries]. rewrite gets_app, length_app, IH.
  change (gets (EvGet (url_of i) :: retry_events' i (tries + 1)))
    with (url_of i :: gets (retry_events' i (tries + 1))).
  by rewrite gets_retry_events.
Qed.

Lemma error_lines_retries i tries k :
  error_lines (retries DEBUG i tries k) = []
  /\ failed_lines (retries DEBUG i tries k) = [].
Proof.
  revert tries. induction k as [|k IH]; intros tries; [done|].
  cbn [retries]. rewrite error_lines_app, failed_lines_app.
  destruct (IH (tries + 1)) as [-> ->].
  unfold retry_events. by destruct DEBUG.
Qed.

(** The sleeps of [k] failed attempts: one per attempt, of as many seconds
    as attempts were made. *)
Lemma sleeps_retries i tries k :
  sleeps (retries DEBUG i tries k)
  = (fun n => mul64 n Second) <$> seqZ (tries + 1) (Z.of_nat k).
Proof.
  revert tries. induction k as [|k IH]; intros tries; [done|].
  cbn [retries]. rewrite sleeps_app, IH, (seqZ_cons (tries + 1)) by lia.
  change (sleeps (EvGet (url_of i) :: retry_events' i (tries + 1)))
    with (sleeps (retry_events' i (tries + 1))).
  rewrite sleeps_retry_events. cbn [fmap list_fmap app].
  do 2 f_equal. f_equal; lia.
Qed.

Lemma retries_no_panic i tries k : EvPanic ∉ retries DEBUG i tries k.
Proof.
  revert tries. induction k as [|k IH]; intros tries; [not_in_list|].
  cbn [retries]. apply not_elem_of_app. split; [|apply IH].
  unfold retry_events. destruct DEBUG; not_in_list.
Qed.

(** C4: when, after any number of attempts that failed and were retried,
    the body of an attempt starts with the document type and has the
    not-found marker within its first 300 bytes, the worker ends the
    identifier with that request and goes on to the next: nothing is sent
    to the writer, no error line and no failed line is logged, and there is
    no request and no sleep after it. The window [body[:300]] is within the
    capacity of the body. *)
Theorem not_found_is_skipped i k body :
  Z.of_nat k < maxTries -> maxTries <= MaxInt64 ->
  (forall n, 1 <= n <= Z.of_nat k -> retryable (http i n)) ->
  http i (Z.of_nat k + 1) = Body body ->
  bytes.HasPrefix (contents body) doctype = true ->
  (300 <= cap body)%nat ->
  0 <= bytes.Index (substring 0 300 (contents body)) notFoundText ->
  let r := process DEBUG http maxTries i in
  r = (retries DEBUG i 0 k ++ [EvGet (url_of i)], Next)
  /\ sent r.1 = []
  /\ error_lines r.1 = []
  /\ failed_lines r.1 = []
  /\ length (gets r.1) = S k.
Proof.
  intros Hk Hm Hfail Hb Hp Hcap Hfound r.
  assert (r = (retries DEBUG i 0 k ++ [EvGet (url_of i)], Next)) as Hr.
  { subst r. rewrite (process_retries i k) by done.
    rewrite (start_body _ _ _ body) by (done || lia).
    destruct (reslice body 300) as [w|] eqn:Hw.
    - pose proof (window_finds _ _ _ Hw Hfound) as Hin.
      destruct (Z.leb_spec 0 (bytes.Index w notFoundText)); [done|lia].
    - unfold reslice in Hw.
      destruct (Nat.leb_spec 300 (cap body)); [discriminate|lia]. }
  rewrite Hr. cbn [fst].
  rewrite sent_app, error_lines_app, failed_lines_app, gets_app, length_app,
    sent_retries, gets_retries.
  destruct (error_lines_retries i 0 k) as [-> ->].
  split_and!; [done..|]. cbn. lia.
Qed.

(** C9, amended: the upper bound of [body[:300]] is checked against the
    capacity of the slice, not its length. For a body that starts with the
    document type, the expression panics exactly when the capacity is
    below 300, and then the identifier reaches neither the skip nor the
    extraction: the process ends. With a capacity of at least 300 there is
    no panic, also for a body of fewer than 300 bytes: the window runs on
    into the spare capacity, and the identifier is skipped or extracted. *)
Theorem window_checks_capacity i k body :
  Z.of_nat k < maxTries -> maxTries <= MaxInt64 ->
  (forall n, 1 <= n <= Z.of_nat k -> retryable (http i n)) ->
  http i (Z.of_nat k + 1) = Body body ->
  bytes.HasPrefix (contents body) doctype = true ->
  (reslice body 300 = None <-> (cap body < 300)%nat)
  /\ ((cap body < 300)%nat ->
      process DEBUG http maxTries i
      = (retries DEBUG i 0 k ++ [EvGet (url_of i); EvPanic], Exit))
  /\ ((300 <= cap body)%nat ->
      (EvPanic ∉ (process DEBUG http maxTries i).1)
      /\ process DEBUG http maxTries i
         = prepend (retries DEBUG i 0 k)
             (if 0 <=? bytes.Index (substring 0 300 (backing body))
                                   notFoundText
              then ([EvGet (url_of i)], Next)
              else prepend [EvGet (url_of i)]
                     (deliver' i (ParseTorrent (contents body)
                                               (set_Id i new_Torrent))))).
Proof.
  intros Hk Hm Hfail Hb Hp. rewrite (process_retries i k) by done.
  rewrite (start_body _ _ _ body) by (done || lia).
  unfold reslice. destruct (Nat.leb_spec 300 (cap body)) as [Hc|Hc].
  - split_and!; [split; [discriminate|lia]|lia|]. intros _.
    split; [|done].
    rewrite prepend_fst. apply not_elem_of_app.
    split; [apply retries_no_panic|].
    destruct (0 <=? _); [cbn; not_in_list|].
    rewrite prepend_fst. apply not_elem_of_app. split; [not_in_list|].
    apply deliver_no_panic.
  - split_and!; [done|done|lia].
Qed.

(** Every attempt fails and is retried: [maxTries] requests, each with its
    sleep, then the identifier is given up. *)
Lemma process_all_fail i :
  maxTries < MaxInt64 ->
  (forall n, 1 <= n <= maxTries -> retryable (http i n)) ->
  process DEBUG http maxTries i
  = prepend (retries DEBUG i 0 (Z.to_nat maxTries))
      (if DEBUG then ([EvFatal ("Failed torrent " +:+ pretty i)], Exit)
       else ([EvLog ("Failed torrent " +:+ pretty i)], Next)).
Proof.
  intros Hm Hfail. unfold process.
  replace (S (Z.to_nat maxTries)) with (Z.to_nat maxTries + 1)%nat by lia.
  destruct (Z_lt_le_dec maxTries 0) as [Hneg|Hpos].
  - replace (Z.to_nat maxTries) with 0%nat by lia. cbn [Nat.add retries].
    rewrite start_abandon by (unfold MaxInt64; lia). by destruct DEBUG.
  - rewrite start_retries; [|lia..|].
    + rewrite start_abandon by lia. done.
    + intros n Hn. apply Hfail. lia.
Qed.

(** While attempts are left the first thing after the label [start] is a
    request. *)
Lemma start_first_get fuel i tries :
  0 <= tries < maxTries -> tries < MaxInt64 ->
  exists after, (start' (S fuel) i tries).1 = EvGet (url_of i) :: after.
Proof.
  intros Ht Hm. cbn [start].
  rewrite add64_succ by (unfold MinInt64; lia).
  destruct (Z.ltb_spec maxTries (tries + 1)); [lia|].
  destruct (http i (tries + 1)) as [| |body];
    [by eexists; rewrite prepend_fst..|].
  destruct (negb _); [by eexists; rewrite prepend_fst|].
  destruct (reslice body 300) as [w|]; [|by eexists].
  destruct (0 <=? _); [by eexists|].
  eexists. by rewrite prepend_fst.
Qed.

(** C7, amended: attempt [n] for an identifier, reached after [n] - 1
    attempts that failed and were retried, fails in a way that is retried
    (connection error, unreadable body, or a body that does not start with
    the document type). Right after its request, and after the retry line
    under [DEBUG], the worker sleeps once, for [n] times one second. What
    comes after the sleep depends on [n]: below [maxTries] it is the
    request of attempt [n] + 1; at [maxTries] there is no further request,
    the worker has slept for nothing and reports the identifier as failed.
    [n] seconds are within the range of [time.Duration]. *)
Theorem retry_sleeps_attempt_seconds i n :
  1 <= n <= maxTries -> maxTries < MaxInt64 -> n * Second <= MaxInt64 ->
  (forall m, 1 <= m <= n -> retryable (http i m)) ->
  exists after,
    (process DEBUG http maxTries i).1
    = retries DEBUG i 0 (Z.to_nat (n - 1))
      ++ [EvGet (url_of i)]
      ++ (if DEBUG
          then [EvLog ("Retry torrent " +:+ pretty i
                       +:+ " (" +:+ pretty n +:+ ")")]
          else [])
      ++ [EvSleep (n * Second)]
      ++ after
    /\ length (gets (retries DEBUG i 0 (Z.to_nat (n - 1)))) = Z.to_nat (n - 1)
    /\ (n < maxTries -> exists after', after = EvGet (url_of i) :: after')
    /\ (n = maxTries ->
        after = [if DEBUG then EvFatal ("Failed torrent " +:+ pretty i)
                 else EvLog ("Failed torrent " +:+ pretty i)]).
Proof.
  intros Hn Hm Hd Hfail.
  exists (start' (Z.to_nat maxTries - Z.to_nat (n - 1)) i n).1.
  split_and!.
  - rewrite (process_retries i (Z.to_nat (n - 1)));
      [|lia|lia|intros m Hm'; apply Hfail; lia].
    rewrite Z2Nat.id by lia.
    rewrite start_retry;
      [|lia|lia|replace (n - 1 + 1) with n by lia; apply Hfail; lia].
    replace (n - 1 + 1) with n by lia.
    rewrite !prepend_fst. unfold retry_events.
    assert (mul64 n Second = n * Second) as ->.
    { apply wrap64_id.
      unfold in_int64, MinInt64, MaxInt64, Second in *. lia. }
    f_equal. cbn [app]. f_equal. by rewrite <-app_assoc.
  - apply gets_retries.
  - intros Hlt.
    replace (Z.to_nat maxTries - Z.to_nat (n - 1))%nat
      with (S (Z.to_nat maxTries - Z.to_nat n))%nat by lia.
    apply start_first_get; lia.
  - intros ->.
    replace (Z.to_nat maxTries - Z.to_nat (maxTries - 1))%nat with 1%nat
      by lia.
    rewrite start_abandon by lia. by destruct DEBUG.
Qed.

(** C2, amended: [maxTries] bounds the requests, not the retries after a
    first request. For every identifier the worker ends its attempts and
    makes at most [maxTries] requests. When every attempt fails in a way
    that is retried, it makes exactly [maxTries] requests (two for
    [maxTries] = 2), each followed by its sleep, sends nothing to the
    writer, and gives the identifier up with the one line that it failed,
    which under [DEBUG] ends the process. *)
Theorem process_requests_at_most_maxTries i :
  maxTries < MaxInt64 ->
  let r := process DEBUG http maxTries i in
  r.2 <> OutOfFuel
  /\ (length (gets r.1) <= Z.to_nat maxTries)%nat
  /\ ((forall n, 1 <= n <= maxTries -> retryable (http i n)) ->
      r = prepend (retries DEBUG i 0 (Z.to_nat maxTries))
            (if DEBUG
             then ([EvFatal ("Failed torrent " +:+ pretty i)], Exit)
             else ([EvLog ("Failed torrent " +:+ pretty i)], Next))
      /\ length (gets r.1) = Z.to_nat maxTries
      /\ sent r.1 = []
      /\ (DEBUG = false ->
          failed_lines r.1 = ["Failed torrent " +:+ pretty i])).
Proof.
  intros Hm r. subst r. split_and!.
  - apply start_fuel; [done..|lia].
  - pose proof (start_gets_bound (S (Z.to_nat maxTries)) i 0) as Hb.
    rewrite Z.sub_0_r in Hb. by apply Hb.
  - intros Hfail. rewrite process_all_fail by done.
    rewrite prepend_fst, gets_app, length_app, sent_app, failed_lines_app,
      gets_retries, sent_retries.
    destruct (error_lines_retries i 0 (Z.to_nat maxTries)) as [_ ->].
    split_and!; [done|by destruct DEBUG; cbn; lia|by destruct DEBUG|].
    by intros ->.
Qed.

End WorkerFacts.

(** ** The writer *)

Section WriterFacts.

Context `{Database}.

Lemma error_lines_exec_log t l :
  error_lines [EvExec t; EvLog ("ERROR: torrent " +:+ l)]
  = ["ERROR: torrent " +:+ l].
Proof. reflexivity. Qed.

(** The loop of the writer without [DEBUG]. *)
Lemma range_dbChan_nonstrict dbChan : forall db,
  let r := range_dbChan false dbChan db in
  r.2.2 = Next
  /\ execs r.2.1 = dbChan
  /\ unlocks r.2.1 = 0%nat
  /\ r.1 = (inserts dbChan db).1
  /\ length (error_lines r.2.1)
     = length (List.filter failed (inserts dbChan db).2).
Proof.
  induction dbChan as [|t dbChan IH]; intros db; [done|].
  cbn [range_dbChan inserts].
  destruct (Exec db t) as [db' err]. cbn [fst snd].
  destruct (IH db') as (Ho & Hx & Hu & Hdb & Hn).
  destruct err as [e|]; cbn zeta; cbn [fst snd List.filter failed];
    rewrite prepend_fst, prepend_snd, execs_app, unlocks_app, error_lines_app.
  - split_and!; [done|cbn; by rewrite Hx|done|done|].
    rewrite error_lines_exec_log, length_app. cbn [length]. by rewrite Hn.
  - split_and!; [done|cbn; by rewrite Hx|done|done|].
    cbn. by rewrite Hn.
Qed.

(** C8: without [DEBUG] the writer takes every record that was sent on the
    channel before it was closed and makes one insert for each, in the
    order received. An insert that fails is logged with one line and is not
    made again, and the writer goes on with the next record: the store is
    left as by the inserts of all the records one after the other. After
    the last record the writer unlocks the mutex, once, and that is the last
    thing it does. *)
Theorem writer_inserts_each_and_unlocks_once dbChan db :
  let r := writer false dbChan db in
  r.2.2 = Next
  /\ execs r.2.1 = dbChan
  /\ r.1 = (inserts dbChan db).1
  /\ length (error_lines r.2.1)
     = length (List.filter failed (inserts dbChan db).2)
  /\ (exists evs, r.2.1 = evs ++ [EvUnlock] /\ unlocks evs = 0%nat)
  /\ unlocks r.2.1 = 1%nat.
Proof.
  destruct (range_dbChan_nonstrict dbChan db) as (Ho & Hx & Hu & Hdb & Hn).
  unfold writer. rewrite Ho. cbn [fst snd].
  rewrite execs_app, unlocks_app, error_lines_app, Hu.
  split_and!; try done.
  - cbn. by rewrite app_nil_r.
  - cbn. by rewrite app_nil_r.
  - by eexists.
Qed.

End WriterFacts.

(** The table: every insert adds a row or returns an error, the rows that
    are there stay, and every record leaves a row for its identifier. *)
Lemma insert_row_size db t :
  (size (insert_row db t).1 + (if (insert_row db t).2 is Some _ then 1 else 0)
   = S (size db))%nat.
Proof.
  unfold insert_row. destruct (db !! Id t) eqn:Hl; cbn [fst snd]; [lia|].
  rewrite map_size_insert_None by done. lia.
Qed.

Lemma insert_row_subseteq db t : db ⊆ (insert_row db t).1.
Proof.
  unfold insert_row. destruct (db !! Id t) eqn:Hl; cbn [fst]; [done|].
  by apply insert_subseteq.
Qed.

Lemma insert_row_lookup db t : is_Some ((insert_row db t).1 !! Id t).
Proof.
  unfold insert_row. destruct (db !! Id t) eqn:Hl; cbn [fst].
  - by rewrite Hl.
  - by rewrite lookup_insert_eq.
Qed.

Lemma inserts_table records : forall db : gmap Z Torrent,
  db ⊆ (inserts records db).1
  /\ (forall t, t ∈ records -> is_Some ((inserts records db).1 !! Id t))
  /\ (size (inserts records db).1
      + length (List.filter failed (inserts records db).2)
      = size db + length records)%nat.
Proof.
  induction records as [|t records IH]; intros db.
  { cbn. split_and!; [done| |lia]. intros t Ht. by apply elem_of_nil in Ht. }
  cbn [inserts Exec Torrents_table fst snd].
  pose proof (insert_row_size db t) as Hsize.
  pose proof (insert_row_subseteq db t) as Hsub.
  pose proof (insert_row_lookup db t) as [row Hrow].
  destruct (IH (insert_row db t).1) as (Hs & Hr & Hn).
  change (@Store Torrents_table) with (gmap Z Torrent) in *.
  split_and!.
  - by etrans.
  - intros u [->|Hu]%elem_of_cons; [|by apply Hr].
    exists row. by eapply lookup_weaken.
  - destruct (insert_row db t).2; cbn [List.filter failed length] in *; lia.
Qed.

(** ** The dispatcher *)

Lemma ids_app a b : ids (a ++ b) = ids a ++ ids b.
Proof. apply omap_app. Qed.

Lemma ids_EvId l : ids (EvId <$> l) = l.
Proof. induction l as [|i l IH]; [done|]. cbn. by rewrite <-IH at 2. Qed.

(** The loop from [i] up to [hi], below the largest [int]. *)
Lemma dispatch_seqZ n : forall fuel i hi,
  MinInt64 <= i -> hi < MaxInt64 ->
  i + Z.of_nat n = hi + 1 ->
  (n < fuel)%nat ->
  dispatch fuel i hi = ((EvId <$> seqZ i (Z.of_nat n)) ++ [EvClose], Next).
Proof.
  induction n as [|n IH]; intros fuel i hi Hi Hhi Hn Hfuel;
    (destruct fuel as [|fuel]; [lia|]); cbn [dispatch].
  - destruct (Z.leb_spec i hi); [lia|]. done.
  - destruct (Z.leb_spec i hi); [|lia].
    rewrite add64_succ by lia. rewrite (IH fuel (i + 1) hi) by lia.
    rewrite (seqZ_cons i) by lia.
    replace (Z.pred (Z.of_nat (S n))) with (Z.of_nat n) by lia.
    done.
Qed.

Lemma seqZ_sorted m n : StronglySorted Z.lt (seqZ m n).
Proof.
  destruct (Z_le_gt_dec n 0) as [Hn|Hn].
  { rewrite seqZ_nil by done. constructor. }
  rewrite <-(Z2Nat.id n) by lia. generalize (Z.to_nat n) as k. clear.
  intros k. revert m. induction k as [|k IH]; intros m.
  { rewrite seqZ_nil by done. constructor. }
  rewrite seqZ_cons by lia.
  replace (Z.pred (Z.of_nat (S k))) with (Z.of_nat k) by lia.
  constructor; [apply IH|].
  apply Forall_seqZ. lia.
Qed.

(** C6, amended: for a start offset and a count within [int], below its
    largest value together, the dispatcher sends the integers from [startOffset + 1]
    to [startOffset + latest] on the identifier channel, each once, in
    strictly increasing order, and then closes the channel, which is the
    last thing it does to it. *)
Theorem dispatcher_sends_range_then_closes startOffset latest :
  in_int64 startOffset -> 0 <= latest ->
  startOffset + latest < MaxInt64 ->
  let r := dispatcher startOffset latest in
  r = ((EvId <$> seqZ (startOffset + 1) latest) ++ [EvClose], Next)
  /\ ids r.1 = seqZ (startOffset + 1) latest
  /\ (forall i, i ∈ ids r.1 <-> startOffset + 1 <= i <= startOffset + latest)
  /\ NoDup (ids r.1)
  /\ StronglySorted Z.lt (ids r.1).
Proof.
  intros Hs Hl Hsum r. unfold in_int64, MinInt64, MaxInt64 in *.
  assert (r = ((EvId <$> seqZ (startOffset + 1) latest) ++ [EvClose], Next))
    as Hr.
  { subst r. unfold dispatcher, add64.
    rewrite !wrap64_id by (unfold in_int64, MinInt64, MaxInt64; lia).
    rewrite (dispatch_seqZ (Z.to_nat latest));
      [|unfold MinInt64, MaxInt64; lia..].
    rewrite Z2Nat.id by lia. by rewrite (Z.add_comm 1). }
  assert (ids r.1 = seqZ (startOffset + 1) latest) as Hids.
  { rewrite Hr. cbn [fst]. rewrite ids_app, ids_EvId. cbn. apply app_nil_r. }
  rewrite Hids. split_and!; [done|done| |apply NoDup_seqZ|apply seqZ_sorted].
  intros i. rewrite elem_of_seqZ. lia.
Qed.

(** ** The end of the loop body without [DEBUG] *)

(** Whatever [ParseTorrent] returned, the record is sent; an error adds one
    line to the log and does not keep the record back. *)
Lemma deliver_nonstrict_sends i (r : Torrent * error) :
  sent (deliver false i r).1 = [r.1]
  /\ (deliver false i r).2 = Next
  /\ length (error_lines (deliver false i r).1) = (if r.2 is Some _ then 1 else 0)%nat.
Proof. unfold deliver. by destruct r.2. Qed.

(** * Examples *)

(** Scenario A: one identifier, a page with all ten fields: one row. *)
Example scenario_A :
  crawl false (run.always page.full) 3 0 1 (∅ : gmap Z Torrent)
  = Some (({[ 1 := run.full_record ]} : gmap Z Torrent),
          [EvId 1; EvClose;
           EvGet run.url1; EvSend run.full_record;
           EvLog "Goroutine done."; EvDone;
           EvExec run.full_record; EvUnlock; EvLog "Done."]).
Proof. vm_compute. reflexivity. Qed.

(** Scenario B: the not-found page: no row, nothing logged by the worker. *)
Example scenario_B :
  crawl false (run.always page.not_found_page) 3 0 1 (∅ : gmap Z Torrent)
  = Some ((∅ : gmap Z Torrent),
          [EvId 1; EvClose; EvGet run.url1;
           EvLog "Goroutine done."; EvDone; EvUnlock; EvLog "Done."]).
Proof. vm_compute. reflexivity. Qed.

(** Scenario C: the network is down and [maxTries] is 2: two requests. *)
Example scenario_C :
  crawl false run.down 2 0 1 (∅ : gmap Z Torrent)
  = Some ((∅ : gmap Z Torrent),
          [EvId 1; EvClose;
           EvGet run.url1; EvSleep 1000000000;
           EvGet run.url1; EvSleep 2000000000;
           EvLog "Failed torrent 1";
           EvLog "Goroutine done."; EvDone; EvUnlock; EvLog "Done."]).
Proof. vm_compute. reflexivity. Qed.

(** C1, at a page without its seeders and without [DEBUG]: the extraction
    stops with an error and one line is logged, and the record, filled up to
    the field before the seeders, is sent to the writer all the same and
    becomes the row of identifier 1. *)
Theorem failed_extraction_is_sent_and_stored :
  ParseTorrent page.no_seeders (set_Id 1 new_Torrent)
  = (run.partial_record, Some "seeders not found")
  /\ process false (run.always page.no_seeders) 3 1
     = ([EvGet run.url1; EvLog "ERROR: torrent 1: seeders not found";
         EvSend run.partial_record], Next)
  /\ crawl false (run.always page.no_seeders) 3 0 1 (∅ : gmap Z Torrent)
     = Some (({[ 1 := run.partial_record ]} : gmap Z Torrent),
             [EvId 1; EvClose;
              EvGet run.url1; EvLog "ERROR: torrent 1: seeders not found";
              EvSend run.partial_record;
              EvLog "Goroutine done."; EvDone;
              EvExec run.partial_record; EvUnlock; EvLog "Done."]).
Proof. split_and!; vm_compute; reflexivity. Qed.

(** The text of the uploader is stored as it is matched, and the
    description keeps the white space around it: the record of a page whose
    uploader has an entity in the name. *)
Lemma uploader_kept_escaped_description_untrimmed :
  (ParseTorrent page.entity_uploader new_Torrent).2 = None
  /\ (exists mu,
        FindSubmatch regexes.uploader page.entity_uploader = Some mu
        /\ Uploader (ParseTorrent page.entity_uploader new_Torrent).1
           <> html_UnescapeString (sub1 mu))
  /\ (exists md,
        FindSubmatch regexes.description page.entity_uploader = Some md
        /\ Description (ParseTorrent page.entity_uploader new_Torrent).1
           <> html_UnescapeString (TrimSpace (stripTags (sub1 md)))).
Proof.
  split_and!.
  - vm_compute. reflexivity.
  - eexists. split; [vm_compute; reflexivity|]. vm_compute. discriminate.
  - eexists. split; [vm_compute; reflexivity|]. vm_compute. discriminate.
Qed.

Lemma ParseTorrent_textual_fields_witness :
  ParseTorrent page.full (set_Id 1 new_Torrent) = (run.full_record, None)
  /\ exists mt mc mu md,
      FindSubmatch regexes.title page.full = Some mt
      /\ Title run.full_record = html_UnescapeString (sub1 mt)
      /\ FindSubmatch regexes.category page.full = Some mc
      /\ Category run.full_record = html_UnescapeString (sub1 mc)
      /\ FindSubmatch regexes.uploader page.full = Some mu
      /\ Uploader run.full_record = sub1 mu
      /\ FindSubmatch regexes.description page.full = Some md
      /\ Description run.full_record
         = html_UnescapeString (stripTags (sub1 md)).
Proof.
  assert (ParseTorrent page.full (set_Id 1 new_Torrent)
          = (run.full_record, None)) as Hrun by (vm_compute; reflexivity).
  split; [exact Hrun|].
  exact (ParseTorrent_textual_fields _ _ _ Hrun).
Defined.

(** A size that does not fit in 64 bits: the extraction stops at the size,
    the third field, with its malformed error, and the size of the record
    is no longer what it was before the call. *)
Lemma malformed_size_is_stored :
  (ParseTorrent page.huge_size new_Torrent).2 = Some (malformed FSize)
  /\ fields !! 2%nat = Some FSize
  /\ Size (ParseTorrent page.huge_size new_Torrent).1 = MaxInt64
  /\ get FSize (ParseTorrent page.huge_size new_Torrent).1
     <> get FSize new_Torrent.
Proof.
  split_and!; [vm_compute; reflexivity..|]. vm_compute. discriminate.
Qed.

Lemma ParseTorrent_error_frame_witness :
  ParseTorrent page.no_seeders (set_Id 1 new_Torrent)
  = (run.partial_record, Some "seeders not found")
  /\ Id run.partial_record = Id (set_Id 1 new_Torrent)
  /\ exists pre f post, fields = pre ++ f :: post
      /\ (forall g, g ∈ pre ->
            exists v, extract g page.no_seeders = Some (v, false)
                      /\ get g run.partial_record = v)
      /\ (forall g, g ∈ post ->
            get g run.partial_record = get g (set_Id 1 new_Torrent))
      /\ (("seeders not found" = not_found f
           /\ extract f page.no_seeders = None
           /\ get f run.partial_record = get f (set_Id 1 new_Torrent))
          \/ ("seeders not found" = malformed f /\
              exists v, extract f page.no_seeders = Some (v, true)
                        /\ get f run.partial_record = v)).
Proof.
  assert (ParseTorrent page.no_seeders (set_Id 1 new_Torrent)
          = (run.partial_record, Some "seeders not found")) as Hrun
      by (vm_compute; reflexivity).
  split; [exact Hrun|].
  exact (ParseTorrent_error_frame _ _ _ _ Hrun).
Defined.

(** With [maxTries] = 2 and the network down there are two requests, not
    three. *)
Lemma two_tries_make_two_requests :
  gets (process false run.down 2 1).1 = [run.url1; run.url1]
  /\ length (gets (process false run.down 2 1).1) <> 3%nat.
Proof. split; [vm_compute; reflexivity|]. vm_compute. discriminate. Qed.

Lemma process_requests_at_most_maxTries_witness :
  2 < MaxInt64
  /\ (process false run.down 2 1).2 <> OutOfFuel
  /\ (length (gets (process false run.down 2 1).1) <= 2)%nat
  /\ length (gets (process false run.down 2 1).1) = 2%nat
  /\ sent (process false run.down 2 1).1 = []
  /\ failed_lines (process false run.down 2 1).1 = ["Failed torrent 1"].
Proof.
  assert (2 < MaxInt64) as Hm by reflexivity.
  destruct (process_requests_at_most_maxTries false run.down 2 1 Hm)
    as (Hfuel & Hle & Hall).
  destruct (Hall (fun _ _ => I)) as (_ & Hg & Hs & Hf).
  exact (conj Hm (conj Hfuel (conj Hle (conj Hg (conj Hs (Hf eq_refl)))))).
Defined.

(** With [maxTries] = 2 and the network down, the second attempt is the
    last: the worker sleeps its two seconds and then gives the identifier
    up, with no request after the sleep. *)
Lemma last_sleep_is_not_followed_by_a_fetch :
  retryable (run.down 1 2)
  /\ process false run.down 2 1
     = ([EvGet run.url1; EvSleep (1 * Second);
         EvGet run.url1; EvSleep (2 * Second);
         EvLog "Failed torrent 1"], Next).
Proof. split; [exact I|]. vm_compute. reflexivity. Qed.

Lemma retry_sleeps_attempt_seconds_witness :
  1 <= 1 <= 3 /\ 3 < MaxInt64 /\ 1 * Second <= MaxInt64
  /\ (forall m, 1 <= m <= 1 -> retryable (run.down 1 m))
  /\ exists after,
      (process false run.down 3 1).1
      = [EvGet (url_of 1); EvSleep (1 * Second)] ++ after
      /\ exists after', after = EvGet (url_of 1) :: after'.
Proof.
  assert (1 <= 1 <= 3) as Hn by lia.
  assert (3 < MaxInt64) as Hm by reflexivity.
  assert (1 * Second <= MaxInt64) as Hd by (vm_compute; discriminate).
  assert (forall m, 1 <= m <= 1 -> retryable (run.down 1 m)) as Hfail
      by (intros m _; exact I).
  refine (conj Hn (conj Hm (conj Hd (conj Hfail _)))).
  destruct (retry_sleeps_attempt_seconds false run.down 3 1 1 Hn Hm Hd Hfail)
    as (after & Htrace & _ & Hnext & _).
  exact (ex_intro _ after (conj Htrace (Hnext eq_refl))).
Defined.

Lemma not_found_is_skipped_witness :
  Z.of_nat 0 < 3 /\ 3 <= MaxInt64
  /\ bytes.HasPrefix (contents (exact_slice page.not_found_page)) doctype = true
  /\ (300 <= cap (exact_slice page.not_found_page))%nat
  /\ 0 <= bytes.Index
            (substring 0 300 (contents (exact_slice page.not_found_page)))
            notFoundText
  /\ process false (run.always page.not_found_page) 3 1
     = ([EvGet (url_of 1)], Next).
Proof.
  assert (Z.of_nat 0 < 3) as Hk by reflexivity.
  assert (3 <= MaxInt64) as Hm by discriminate.
  assert (bytes.HasPrefix (contents (exact_slice page.not_found_page)) doctype
          = true) as Hp by (vm_compute; reflexivity).
  assert (300 <= cap (exact_slice page.not_found_page))%nat as Hc
      by (vm_compute; lia).
  assert (0 <= bytes.Index
                 (substring 0 300 (contents (exact_slice page.not_found_page)))
                 notFoundText) as Hf by (vm_compute; discriminate).
  refine (conj Hk (conj Hm (conj Hp (conj Hc (conj Hf _))))).
  exact (proj1 (not_found_is_skipped false (run.always page.not_found_page)
                  3 1 0%nat (exact_slice page.not_found_page)
                  Hk Hm (fun n Hn => ltac:(lia)) eq_refl Hp Hc Hf)).
Defined.

(** A body of 21 bytes in a buffer of 512: the slice expression does not
    panic, and the identifier goes on to the extraction. *)
Lemma short_body_does_not_panic :
  (len page.short_body < 300)%nat
  /\ bytes.HasPrefix (contents page.short_body) doctype = true
  /\ process false (fun _ _ => Body page.short_body) 3 1
     = ([EvGet run.url1; EvLog "ERROR: torrent 1: title not found";
         EvSend (set_Id 1 new_Torrent)], Next).
Proof. split_and!; vm_compute; [lia|reflexivity..]. Qed.

Lemma window_checks_capacity_witness :
  Z.of_nat 0 < 3 /\ 3 <= MaxInt64
  /\ bytes.HasPrefix (contents page.short_body) doctype = true
  /\ (300 <= cap page.short_body)%nat
  /\ (EvPanic ∉ (process false (fun _ _ => Body page.short_body) 3 1).1).
Proof.
  assert (Z.of_nat 0 < 3) as Hk by reflexivity.
  assert (3 <= MaxInt64) as Hm by discriminate.
  assert (bytes.HasPrefix (contents page.short_body) doctype = true) as Hp
      by (vm_compute; reflexivity).
  assert (300 <= cap page.short_body)%nat as Hc by (vm_compute; lia).
  refine (conj Hk (conj Hm (conj Hp (conj Hc _)))).
  destruct (window_checks_capacity false (fun _ _ => Body page.short_body) 3
              1 0%nat page.short_body Hk Hm (fun n Hn => ltac:(lia))
              eq_refl Hp) as (_ & _ & Hok).
  exact (proj1 (Hok Hc)).
Defined.

Lemma dispatcher_sends_range_then_closes_witness :
  in_int64 5 /\ 0 <= 3 /\ 5 + 3 < MaxInt64
  /\ dispatcher 5 3 = ([EvId 6; EvId 7; EvId 8; EvClose], Next).
Proof.
  assert (in_int64 5) as Hs by (split; discriminate).
  assert (0 <= 3) as Hl by lia.
  assert (5 + 3 < MaxInt64) as Hsum by reflexivity.
  refine (conj Hs (conj Hl (conj Hsum _))).
  exact (proj1 (dispatcher_sends_range_then_closes 5 3 Hs Hl Hsum)).
Defined.

(** * Further properties *)

(** ** Strings *)

Lemma append_assoc (a b c : string) : (a +:+ b) +:+ c = a +:+ b +:+ c.
Proof.
  induction a as [|x a IH]; [done|].
  change (String x (a +:+ b +:+ c)) with (String x a +:+ b +:+ c) in *.
  change ((String x a +:+ b) +:+ c) with (String x ((a +:+ b) +:+ c)).
  by rewrite IH.
Qed.

Lemma append_nil_r (a : string) : a +:+ EmptyString = a.
Proof.
  induction a as [|x a IH]; [done|].
  change (String x a +:+ EmptyString) with (String x (a +:+ EmptyString)).
  by rewrite IH.
Qed.

Lemma length_append (a b : string) :
  String.length (a +:+ b) = (String.length a + String.length b)%nat.
Proof.
  induction a as [|x a IH]; [done|].
  change (String x a +:+ b) with (String x (a +:+ b)). cbn. by rewrite IH.
Qed.

(** The part of a string between two others. *)
Lemma substring_middle (pre m post : string) :
  substring (String.length pre) (String.length m) (pre +:+ m +:+ post) = m.
Proof.
  induction pre as [|x pre IH].
  - change (EmptyString +:+ m +:+ post) with (m +:+ post). cbn [String.length].
    induction m as [|y m IHm]; [by destruct post|].
    change (String y m +:+ post) with (String y (m +:+ post)). cbn.
    by rewrite IHm.
  - change (String x pre +:+ m +:+ post) with (String x (pre +:+ m +:+ post)).
    cbn. apply IH.
Qed.

(** ** The matcher *)

(** One step of a repetition. *)
Lemma backtrack_rep cl greedy re s p :
  backtrack (Rep cl greedy :: re) s p
  = let more :=
      match s with
      | String c s' =>
          if cl c then backtrack (Rep cl greedy :: re) s' (step p) else None
      | EmptyString => None
      end in
    if greedy then
      match more with
      | Some r => Some r
      | None => backtrack re s p
      end
    else
      match backtrack re s p with
      | Some r => Some r
      | None => more
      end.
Proof. by destruct s. Qed.

(** What the matcher finds is a match of a prefix of its input. *)
Lemma backtrack_matches re : forall s p r,
  backtrack re s p = Some r ->
  exists w rest, s = w +:+ rest /\ matches re w p r.
Proof.
  induction re as [|a re IH]; intros s p r.
  { intros [= <-]. exists EmptyString, s. split; [done|constructor]. }
  destruct a as [c|cl|cl greedy| |].
  - destruct s as [|c' s]; [discriminate|]. cbn [backtrack].
    destruct (Ascii.eqb_spec c c') as [<-|]; [|discriminate].
    intros (w & rest & -> & Hm)%IH.
    exists (String c w), rest. split; [done|by constructor].
  - destruct s as [|c' s]; [discriminate|]. cbn [backtrack].
    destruct (cl c') eqn:Hc; [|discriminate].
    intros (w & rest & -> & Hm)%IH.
    exists (String c' w), rest. split; [done|by constructor].
  - revert p. induction s as [|c s IHs]; intros p; rewrite backtrack_rep;
      cbn zeta.
    + assert (backtrack re EmptyString p = Some r ->
              exists w rest, EmptyString = w +:+ rest
                             /\ matches (Rep cl greedy :: re) w p r) as Hstop.
      { intros (w & rest & Heq & Hm)%IH. exists w, rest.
        split; [done|by constructor]. }
      destruct greedy; [done|].
      destruct (backtrack re EmptyString p) eqn:Hb; [|discriminate].
      intros [= <-]. by apply Hstop.
    + assert (backtrack re (String c s) p = Some r ->
              exists w rest, String c s = w +:+ rest
                             /\ matches (Rep cl greedy :: re) w p r) as Hstop.
      { intros (w & rest & Heq & Hm)%IH. exists w, rest.
        split; [done|by constructor]. }
      assert ((if cl c then backtrack (Rep cl greedy :: re) s (step p)
               else None) = Some r ->
              exists w rest, String c s = w +:+ rest
                             /\ matches (Rep cl greedy :: re) w p r) as Hmore.
      { destruct (cl c) eqn:Hc; [|discriminate].
        intros (w & rest & -> & Hm)%IHs.
        exists (String c w), rest. split; [done|by constructor]. }
      destruct greedy.
      * destruct (if cl c then _ else _) as [r'|] eqn:Hm.
        -- intros [= <-]. by apply Hmore.
        -- done.
      * destruct (backtrack re (String c s) p) as [r'|] eqn:Hb.
        -- intros [= <-]. by apply Hstop.
        -- done.
  - cbn [backtrack]. intros (w & rest & -> & Hm)%IH.
    exists w, rest. split; [done|by constructor].
  - cbn [backtrack]. intros (w & rest & -> & Hm)%IH.
    exists w, rest. split; [done|by constructor].
Qed.

(** A pattern without group marks moves the position by the length of the
    word and leaves the group as it is. *)
Lemma matches_flat re w p r :
  flat re = true -> matches re w p r ->
  r = mkPos (at_ p + String.length w) (gstart p) (gend p).
Proof.
  intros Hflat Hm. induction Hm as
    [p|c re w p r Hm IH|cl c re w p r Hc Hm IH|cl g re w p r Hm IH
    |cl g re c w p r Hc Hm IH|re w p r Hm IH|re w p r Hm IH];
    cbn [flat forallb andb] in Hflat; try discriminate.
  - destruct p. cbn. f_equal. lia.
  - rewrite IH by done. cbn. f_equal. lia.
  - rewrite IH by done. cbn. f_equal. lia.
  - by apply IH.
  - rewrite IH by done. cbn. f_equal. lia.
Qed.

(** A match of two patterns in a row is a match of the first followed by a
    match of the second. *)
Lemma matches_app a : forall b w p r,
  matches (a ++ b) w p r ->
  exists w1 w2 q, w = w1 +:+ w2 /\ matches a w1 p q /\ matches b w2 q r.
Proof.
  induction a as [|x a IH]; intros b w p r Hm.
  { exists EmptyString, w, p. split; [done|]. split; [constructor|done]. }
  cbn [app] in Hm. remember (x :: a ++ b) as re eqn:Hre.
  induction Hm as
    [p|c re w p r Hm _|cl c re w p r Hc Hm _|cl g re w p r Hm _
    |cl g re c w p r Hc Hm IHm|re w p r Hm _|re w p r Hm _];
    simplify_eq.
  - destruct (IH _ _ _ _ Hm) as (w1 & w2 & q & -> & H1 & H2).
    exists (String c w1), w2, q. split; [done|]. split; [by constructor|done].
  - destruct (IH _ _ _ _ Hm) as (w1 & w2 & q & -> & H1 & H2).
    exists (String c w1), w2, q. split; [done|]. split; [by constructor|done].
  - destruct (IH _ _ _ _ Hm) as (w1 & w2 & q & -> & H1 & H2).
    exists w1, w2, q. split; [done|]. split; [by constructor|done].
  - destruct (IHm eq_refl) as (w1 & w2 & q & -> & H1 & H2).
    exists (String c w1), w2, q. split; [done|].
    split; [by apply matches_rep_more|done].
  - destruct (IH _ _ _ _ Hm) as (w1 & w2 & q & -> & H1 & H2).
    exists w1, w2, q. split; [done|]. split; [by constructor|done].
  - destruct (IH _ _ _ _ Hm) as (w1 & w2 & q & -> & H1 & H2).
    exists w1, w2, q. split; [done|]. split; [by constructor|done].
Qed.

(** A match of a pattern with one group: the words of the three parts, and
    where the group lies. *)
Lemma matches_grouped a g c w p r :
  flat a = true -> flat g = true -> flat c = true ->
  matches (grouped a g c) w p r ->
  exists wa wg wc, w = wa +:+ wg +:+ wc
    /\ lang a wa /\ lang g wg /\ lang c wc
    /\ at_ r = (at_ p + String.length w)%nat
    /\ gstart r = (at_ p + String.length wa)%nat
    /\ gend r = (gstart r + String.length wg)%nat.
Proof.
  intros Ha Hg Hc Hm. unfold grouped in Hm.
  apply matches_app in Hm as (wa & w' & q & -> & Hma & Hm).
  inversion Hm as [| | | | |re w0 p0 r0 Hm'|]; subst.
  apply matches_app in Hm' as (wg & w'' & q' & -> & Hmg & Hm').
  inversion Hm' as [| | | | | |re w0 p0 r0 Hmc]; subst.
  pose proof (matches_flat _ _ _ _ Ha Hma) as Hq.
  pose proof (matches_flat _ _ _ _ Hg Hmg) as Hq'.
  pose proof (matches_flat _ _ _ _ Hc Hmc) as Hr.
  subst q q'. cbn in Hr. subst r. cbn.
  exists wa, wg, w''. rewrite !length_append.
  split_and!; [done|by eexists _, _..|lia|lia|lia].
Qed.

(** The search: where it finds a match, the matcher succeeds. *)
Lemma search_backtrack re : forall s from f r,
  search re s from = Some (f, r) ->
  exists pre s', s = pre +:+ s' /\ f = (from + String.length pre)%nat
                 /\ backtrack re s' (mkPos f 0 0) = Some r.
Proof.
  induction s as [|c s IH]; intros from f r; cbn [search].
  - destruct (backtrack re EmptyString (mkPos from 0 0)) eqn:Hb;
      [|discriminate].
    intros [= <- <-]. exists EmptyString, EmptyString. cbn.
    split_and!; [done|lia|done].
  - destruct (backtrack re (String c s) (mkPos from 0 0)) eqn:Hb.
    + intros [= <- <-]. exists EmptyString, (String c s). cbn.
      split_and!; [done|lia|done].
    + intros (pre & s' & -> & -> & Hb')%IH.
      exists (String c pre), s'. cbn. split_and!; [done|lia|done].
Qed.

(** The submatches of a pattern with one group: the input is cut in five,
    the match is the three parts in the middle and the submatch is the part
    of the group. *)
Lemma FindSubmatch_grouped a g c b m :
  flat a = true -> flat g = true -> flat c = true ->
  FindSubmatch (grouped a g c) b = Some m ->
  exists pre wa wg wc post,
    b = pre +:+ wa +:+ wg +:+ wc +:+ post
    /\ lang a wa /\ lang g wg /\ lang c wc
    /\ m = [wa +:+ wg +:+ wc; wg].
Proof.
  intros Ha Hg Hc. unfold FindSubmatch.
  destruct (search (grouped a g c) b 0) as [[f r]|] eqn:Hs; [|discriminate].
  intros [= <-].
  apply search_backtrack in Hs as (pre & s' & -> & -> & Hb).
  change (0 + String.length pre)%nat with (String.length pre) in *.
  apply backtrack_matches in Hb as (w & post & -> & Hm).
  apply matches_grouped in Hm
    as (wa & wg & wc & -> & Hwa & Hwg & Hwc & Hat & Hgs & Hge); [|done..].
  cbn in Hat, Hgs, Hge. exists pre, wa, wg, wc, post.
  rewrite !append_assoc. split_and!; [done..|].
  rewrite Hgs in Hge. rewrite Hat, Hgs, Hge. f_equal; [|f_equal].
  - replace (String.length pre
             + String.length (wa +:+ wg +:+ wc) - String.length pre)%nat
      with (String.length (wa +:+ wg +:+ wc)) by lia.
    replace (pre +:+ wa +:+ wg +:+ wc +:+ post)
      with (pre +:+ (wa +:+ wg +:+ wc) +:+ post)
      by (by rewrite !append_assoc).
    apply substring_middle.
  - replace (String.length pre + String.length wa + String.length wg
             - (String.length pre + String.length wa))%nat
      with (String.length wg) by lia.
    replace (pre +:+ wa +:+ wg +:+ wc +:+ post)
      with ((pre +:+ wa) +:+ wg +:+ wc +:+ post)
      by (by rewrite !append_assoc).
    rewrite <-length_append. apply substring_middle.
Qed.

(** ** The words of the patterns of the source *)

Lemma lang_lit s : forall re w,
  lang (lit s ++ re) w -> exists w', w = s +:+ w' /\ lang re w'.
Proof.
  induction s as [|c s IH]; intros re w (p & r & Hm).
  { exists w. split; [done|]. by exists p, r. }
  cbn [lit app] in Hm. inversion Hm as [|c' re' w' p' r' Hm'| | | | |]; subst.
  destruct (IH re w') as (w'' & -> & Hl); [by eexists _, _|].
  by exists w''.
Qed.

Lemma matches_rep_all cl greedy w p r :
  matches [Rep cl greedy] w p r -> all_in cl w = true.
Proof.
  intros Hm. remember [Rep cl greedy] as re eqn:Hre.
  induction Hm as
    [p|c re w p r Hm _|cl' c re w p r Hc Hm _|cl' g re w p r Hm _
    |cl' g re c w p r Hc Hm IH|re w p r Hm _|re w p r Hm _];
    simplify_eq.
  - by inversion Hm.
  - cbn. by rewrite Hc, IH.
Qed.

(** A word of [cl+] or [cl+?] is not empty and is made of the class. *)
Lemma lang_plus cl greedy w :
  lang (plus cl greedy) w -> w <> EmptyString /\ all_in cl w = true.
Proof.
  intros (p & r & Hm). unfold plus in Hm.
  inversion Hm as [| |cl' c re w' p' r' Hc Hm'| | | |]; subst.
  apply matches_rep_all in Hm'. split; [done|]. cbn. by rewrite Hc, Hm'.
Qed.

(** The patterns of the source, in their three parts. *)
Lemma pattern_grouped f :
  exists a g c, pattern f = grouped a g c
    /\ flat a = true /\ flat g = true /\ flat c = true
    /\ g = match f with
           | FSize | FSeeders | FLeechers | FFiles_num => plus digit true
           | FDescription => plus any false
           | FMagnet => lit "magnet:" ++ plus dot false
           | _ => plus dot false
           end.
Proof.
  destruct f.
  - exists (lit ("<div id=" +:+ dq +:+ "title" +:+ dq +:+ ">")
            ++ [Rep space true]),
      (plus dot false), ([Rep space true] ++ lit "</div>"). by split_and!.
  - exists (lit "<dt>Type:</dt>" ++ [Rep space true] ++ lit "<dd><a"
            ++ [Rep not_gt true] ++ lit ">"),
      (plus dot false), (lit "</a></dd>"). by split_and!.
  - exists (lit "<dt>Size:</dt>" ++ [Rep any false] ++ lit "("),
      (plus digit true), (lit "&nbsp;Bytes)</dd>"). by split_and!.
  - exists (lit "<dt>Seeders:</dt>" ++ [Rep any false]),
      (plus digit true), (lit "</dd>"). by split_and!.
  - exists (lit "<dt>Leechers:</dt>" ++ [Rep any false]),
      (plus digit true), (lit "</dd>"). by split_and!.
  - exists (lit "<dt>Uploaded:</dt>" ++ [Rep space true] ++ lit "<dd>"),
      (plus dot false), (lit "</dd>"). by split_and!.
  - exists (lit "<dt>By:</dt>" ++ [Rep space true] ++ lit "<dd>"
            ++ [Rep space true] ++ lit "<" ++ [Cls a_or_i]
            ++ [Rep not_gt true] ++ lit ">"),
      (plus dot false), (lit "</" ++ [Cls a_or_i] ++ lit ">").
    by split_and!.
  - exists (lit "<dt>Files:</dt>" ++ [Rep space true] ++ lit "<dd>"
            ++ plus any false),
      (plus digit true), (lit "</a></dd>"). by split_and!.
  - exists (lit ("<div class=" +:+ dq +:+ "nfo" +:+ dq +:+ ">")
            ++ [Rep space true] ++ lit "<pre>"),
      (plus any false), (lit "</pre>"). by split_and!.
  - exists (lit ("href=" +:+ dq)),
      (lit "magnet:" ++ plus dot false),
      (lit (dq +:+ " title=" +:+ dq +:+ "Get this torrent" +:+ dq)).
    by split_and!.
Qed.

(** The submatch of a field: it lies in the input, and is a word of the
    group of its pattern. *)
Lemma FindSubmatch_pattern f data m :
  FindSubmatch (pattern f) data = Some m ->
  (exists pre post, data = pre +:+ sub1 m +:+ post)
  /\ lang match f with
          | FSize | FSeeders | FLeechers | FFiles_num => plus digit true
          | FDescription => plus any false
          | FMagnet => lit "magnet:" ++ plus dot false
          | _ => plus dot false
          end (sub1 m).
Proof.
  destruct (pattern_grouped f) as (a & g & c & -> & Ha & Hg & Hc & <-).
  intros (pre & wa & wg & wc & post & -> & _ & Hl & _ & ->)
    %FindSubmatch_grouped; [|done..].
  split; [|done]. exists (pre +:+ wa), (wc +:+ post).
  cbn [sub1 nth]. by rewrite !append_assoc.
Qed.

(** ** Numbers *)

Lemma digit_value c :
  digit c = true -> 0 <= Z.of_nat (nat_of_ascii c) - 48 <= 9.
Proof.
  unfold digit. intros [H1 H2]%andb_prop.
  apply Nat.leb_le in H1, H2. lia.
Qed.

Lemma digits_all_in s : forall acc,
  all_in digit s = true -> 0 <= acc ->
  exists v, strconv.digits acc s = Some v /\ acc <= v.
Proof.
  induction s as [|c s IH]; intros acc Hall Hacc; cbn in *.
  { exists acc. split; [done|lia]. }
  apply andb_prop in Hall as [Hc Hs]. rewrite Hc.
  pose proof (digit_value c Hc) as Hv.
  destruct (IH (10 * acc + (Z.of_nat (nat_of_ascii c) - 48)) Hs) as (v & -> & Hle);
    [lia|].
  exists v. split; [done|lia].
Qed.

(** A sign is not a digit. *)
Lemma digit_not_sign c s :
  digit c = true ->
  match String c s with
  | String "+" s' => (false, s')
  | String "-" s' => (true, s')
  | _ => (false, String c s)
  end = (false, String c s).
Proof.
  intros Hc.
  destruct c as [[] [] [] [] [] [] [] []]; try done; discriminate Hc.
Qed.

(** The conversion of a non-empty string of digits: its value, or the
    largest integer with a range error when the value is beyond it. There
    is no syntax error. *)
Lemma ParseInt_digits s :
  s <> EmptyString -> all_in digit s = true ->
  exists v, 0 <= v /\ strconv.unsigned s = Some v
    /\ strconv.ParseInt s 64
       = if 2 ^ 63 <=? v then (MaxInt64, Some strconv.ErrRange) else (v, None).
Proof.
  intros Hne Hall. destruct s as [|c s]; [done|].
  pose proof Hall as Hc. cbn in Hc. apply andb_prop in Hc as [Hc _].
  destruct (digits_all_in (String c s) 0 Hall) as (v & Hd & Hv); [lia|].
  exists v. split; [done|]. split; [done|].
  unfold strconv.ParseInt. rewrite (digit_not_sign c s Hc).
  unfold strconv.unsigned. rewrite Hd. cbn [negb andb].
  change (2 ^ (64 - 1)) with (2 ^ 63). by destruct (2 ^ 63 <=? v).
Qed.

(** ** The extractor: what a record holds *)

Lemma malformed_inj f g : malformed f = malformed g -> f = g.
Proof. destruct f, g; try done; discriminate. Qed.

Lemma malformed_not_found f g : malformed f <> not_found g.
Proof. destruct f, g; discriminate. Qed.

(** Two records with the same identifier and the same ten fields. *)
Lemma Torrent_ext (a b : Torrent) :
  Id a = Id b -> (forall g, g ∈ fields -> get g a = get g b) -> a = b.
Proof.
  intros HId Hget. destruct a, b. cbn in HId.
  pose proof (Hget FTitle ltac:(compute_done)) as H1.
  pose proof (Hget FCategory ltac:(compute_done)) as H2.
  pose proof (Hget FSize ltac:(compute_done)) as H3.
  pose proof (Hget FSeeders ltac:(compute_done)) as H4.
  pose proof (Hget FLeechers ltac:(compute_done)) as H5.
  pose proof (Hget FUploaded ltac:(compute_done)) as H6.
  pose proof (Hget FUploader ltac:(compute_done)) as H7.
  pose proof (Hget FFiles_num ltac:(compute_done)) as H8.
  pose proof (Hget FDescription ltac:(compute_done)) as H9.
  pose proof (Hget FMagnet ltac:(compute_done)) as H10.
  cbn in *. by simplify_eq.
Qed.

Section ExtractorMore.

Context `{Library}.

(** The text that a numeric field converts is a non-empty string of digits:
    the conversion gives its value, or fails with the largest integer when
    the value is beyond it. *)
Lemma extract_numeric f data v bad :
  numeric f = true -> extract f data = Some (v, bad) ->
  exists m n, FindSubmatch (pattern f) data = Some m
    /\ all_in digit (sub1 m) = true
    /\ strconv.unsigned (sub1 m) = Some n /\ 0 <= n
    /\ bad = (2 ^ 63 <=? n)
    /\ v = VInt (if bad then MaxInt64 else n).
Proof.
  intros Hnum. unfold extract.
  destruct (FindSubmatch (pattern f) data) as [m|] eqn:Hm; [|discriminate].
  destruct (FindSubmatch_pattern _ _ _ Hm) as [_ Hl].
  assert (lang (plus digit true) (sub1 m)) as Hd by (by destruct f).
  apply lang_plus in Hd as [Hne Hall].
  destruct (ParseInt_digits _ Hne Hall) as (n & Hn & Hu & Hp).
  intros [= Hdec]. exists m, n. split_and!; [done..| |].
  - destruct f; try discriminate Hnum; cbn [decode] in Hdec;
      unfold strconv.Atoi, strconv.IntSize in Hdec; rewrite Hp in Hdec;
      destruct (2 ^ 63 <=? n); by simplify_eq/=.
  - destruct f; try discriminate Hnum; cbn [decode] in Hdec;
      unfold strconv.Atoi, strconv.IntSize in Hdec; rewrite Hp in Hdec;
      destruct (2 ^ 63 <=? n); by simplify_eq/=.
Qed.

(** X1: in a record that is extracted without error, the size, the
    seeders, the leechers and the number of files are between 0 and the
    largest 64-bit integer. *)
Theorem ParseTorrent_numbers_in_range data t t' :
  ParseTorrent data t = (t', None) ->
  0 <= Size t' <= MaxInt64 /\ 0 <= Seeders t' <= MaxInt64
  /\ 0 <= Leechers t' <= MaxInt64 /\ 0 <= Files_num t' <= MaxInt64.
Proof.
  rewrite ParseTorrent_extract_fields. intros Hrun.
  pose proof (extract_fields_all _ _ _ _ NoDup_fields Hrun) as Hall.
  assert (forall f, numeric f = true ->
            exists n, get f t' = VInt n /\ 0 <= n <= MaxInt64) as Hnum.
  { intros f Hf. destruct (Hall f) as (v & Hx & Hget); [destruct f; compute_done|].
    destruct (extract_numeric _ _ _ _ Hf Hx)
      as (m & n & _ & _ & _ & Hn & Hbad & ->).
    exists n. split; [done|]. symmetry in Hbad.
    apply Z.leb_gt in Hbad. unfold MaxInt64. lia. }
  destruct (Hnum FSize eq_refl) as (n1 & [= ->] & ?).
  destruct (Hnum FSeeders eq_refl) as (n2 & [= ->] & ?).
  destruct (Hnum FLeechers eq_refl) as (n3 & [= ->] & ?).
  destruct (Hnum FFiles_num eq_refl) as (n4 & [= ->] & ?).
  done.
Qed.

(** X2: the malformed error of a numeric field has one cause. The text
    matched is a non-empty string of digits, never a text that is not a
    number; its value is beyond the largest 64-bit integer, and the field
    of the record is left at that largest integer. *)
Theorem malformed_number_is_overflow data t t' f :
  numeric f = true ->
  ParseTorrent data t = (t', Some (malformed f)) ->
  get f t' = VInt MaxInt64
  /\ exists m n, FindSubmatch (pattern f) data = Some m
      /\ sub1 m <> EmptyString
      /\ all_in digit (sub1 m) = true
      /\ strconv.unsigned (sub1 m) = Some n
      /\ MaxInt64 < n.
Proof.
  rewrite ParseTorrent_extract_fields. intros Hnum Hrun.
  destruct (extract_fields_stop _ _ _ _ _ NoDup_fields Hrun)
    as (pre & g & post & _ & _ & _ & Hstop).
  destruct Hstop as [(He & _)|(He & v & Hx & Hget)].
  { by apply malformed_not_found in He. }
  apply malformed_inj in He as <-.
  destruct (extract_numeric _ _ _ _ Hnum Hx)
    as (m & n & Hm & Hall & Hu & Hn & Hbad & ->).
  split; [done|]. exists m, n. split_and!; [done| |done|done|].
  - intros Hempty. rewrite Hempty in Hu. discriminate.
  - symmetry in Hbad. apply Z.leb_le in Hbad. unfold MaxInt64. lia.
Qed.

(** X3: the two fields that are stored as they are matched. In a record
    that is extracted without error the locator starts with [magnet:] and
    goes on with at least one more byte; the locator and the uploader are
    pieces of the page, and neither has a line feed in it. *)
Theorem verbatim_fields_are_pieces_of_the_page data t t' :
  ParseTorrent data t = (t', None) ->
  (exists rest, Magnet t' = "magnet:" +:+ rest /\ rest <> EmptyString)
  /\ (exists pre post, data = pre +:+ Magnet t' +:+ post)
  /\ all_in dot (Magnet t') = true
  /\ Uploader t' <> EmptyString
  /\ (exists pre post, data = pre +:+ Uploader t' +:+ post)
  /\ all_in dot (Uploader t') = true.
Proof.
  rewrite ParseTorrent_extract_fields. intros Hrun.
  pose proof (extract_fields_all _ _ _ _ NoDup_fields Hrun) as Hall.
  destruct (Hall FMagnet) as (vm & Hxm & Hgm); [compute_done|].
  destruct (Hall FUploader) as (vu & Hxu & Hgu); [compute_done|].
  unfold extract in Hxm, Hxu.
  destruct (FindSubmatch (pattern FMagnet) data) as [mm|] eqn:Hmm;
    [|discriminate].
  destruct (FindSubmatch (pattern FUploader) data) as [mu|] eqn:Hmu;
    [|discriminate].
  cbn [decode get] in *.
  injection Hxm as Hvm. injection Hxu as Hvu. subst vm vu.
  injection Hgm as Hgm. injection Hgu as Hgu.
  destruct (FindSubmatch_pattern _ _ _ Hmm) as [Hin Hl].
  destruct (FindSubmatch_pattern _ _ _ Hmu) as [Hinu Hlu].
  apply lang_plus in Hlu as [Hneu Hallu].
  apply lang_lit in Hl as (rest & Heq & [Hner Hallr]%lang_plus).
  rewrite Hgm, Hgu. split_and!; [by exists rest|done| |done..].
  rewrite Heq. by cbn.
Qed.

(** X4: an extraction without error writes all ten fields. Its outcome is
    the same whatever record is passed in, and the record that comes back
    differs only in the identifier, which is the one passed in. *)
Theorem ParseTorrent_success_overwrites data t t' u :
  ParseTorrent data t = (t', None) ->
  ParseTorrent data u = (set_Id (Id u) t', None).
Proof.
  rewrite !ParseTorrent_extract_fields. intros Hrun.
  destruct (extract_fields fields data u) as [u' e] eqn:Hu.
  pose proof (extract_fields_error fields data t) as Het.
  pose proof (extract_fields_error fields data u) as Heu.
  rewrite Hrun in Het. rewrite Hu in Heu. cbn [snd] in *.
  rewrite <-Het in Heu. subst e. f_equal.
  pose proof (extract_fields_Id fields data u) as HId. rewrite Hu in HId.
  pose proof (extract_fields_all _ _ _ _ NoDup_fields Hrun) as Hat.
  pose proof (extract_fields_all _ _ _ _ NoDup_fields Hu) as Hau.
  apply Torrent_ext; [done|].
  intros g Hg. destruct (Hat g Hg) as (v & Hx & Hv).
  destruct (Hau g Hg) as (v' & Hx' & Hv'). simplify_eq.
  by destruct g.
Qed.

End ExtractorMore.

(** ** The worker: what it sends and how it ends *)

Section WorkerMore.

Context `{Library}.
Variable DEBUG : bool.
Variable http : Z -> Z -> Response.
Variable maxTries : Z.

Lemma ParseTorrent_Id data t : Id (ParseTorrent data t).1 = Id t.
Proof. rewrite ParseTorrent_extract_fields. apply extract_fields_Id. Qed.

(** Where the records that are sent come from. *)
Lemma start_sent fuel : forall i tries,
  (length (sent (start DEBUG http maxTries fuel i tries).1) <= 1)%nat
  /\ forall t, t ∈ sent (start DEBUG http maxTries fuel i tries).1 ->
       exists n body e,
         http i n = Body body
         /\ bytes.HasPrefix (contents body) doctype = true
         /\ ParseTorrent (contents body) (set_Id i new_Torrent) = (t, e)
         /\ (DEBUG = true -> e = None).
Proof.
  induction fuel as [|fuel IH]; intros i tries.
  { split; [cbn; lia|]. intros t Ht. by apply elem_of_nil in Ht. }
  cbn [start]. set (n := add64 tries 1).
  destruct (maxTries <? n).
  { destruct DEBUG; (split; [cbn; lia|]); intros t Ht;
      by apply elem_of_nil in Ht. }
  destruct (http i n) as [| |body] eqn:Hresp.
  - rewrite sent_prepend_retry. apply IH.
  - rewrite sent_prepend_retry. apply IH.
  - destruct (bytes.HasPrefix (contents body) doctype) eqn:Hp; cbn [negb].
    2: { rewrite sent_prepend_retry. apply IH. }
    destruct (reslice body 300) as [w|].
    2: { split; [cbn; lia|]. intros t Ht. by apply elem_of_nil in Ht. }
    destruct (0 <=? bytes.Index w notFoundText).
    { split; [cbn; lia|]. intros t Ht. by apply elem_of_nil in Ht. }
    rewrite prepend_fst, sent_app. change (sent [EvGet (url_of i)]) with (@nil Torrent).
    cbn [app]. unfold deliver.
    destruct (ParseTorrent (contents body) (set_Id i new_Torrent))
      as [t' [e|]] eqn:Hparse; cbn [fst snd].
    + destruct DEBUG eqn:HD.
      * split; [cbn; lia|]. intros t Ht. by apply elem_of_nil in Ht.
      * split; [cbn; lia|]. intros t Ht. cbn in Ht.
        apply list_elem_of_singleton in Ht as ->.
        exists n, body, (Some e). by split_and!.
    + split; [cbn; lia|]. intros t Ht. cbn in Ht.
      apply list_elem_of_singleton in Ht as ->.
      exists n, body, None. by split_and!.
Qed.

Lemma process_sent i :
  (length (sent (process DEBUG http maxTries i).1) <= 1)%nat
  /\ forall t, t ∈ sent (process DEBUG http maxTries i).1 -> Id t = i.
Proof.
  unfold process.
  destruct (start_sent (S (Z.to_nat maxTries)) i 0) as [Hlen Hfrom].
  split; [done|]. intros t Ht.
  destruct (Hfrom t Ht) as (n & body & e & Hb & Hp & Hparse & He).
  pose proof (ParseTorrent_Id (contents body) (set_Id i new_Torrent)) as HId.
  by rewrite Hparse in HId.
Qed.

(** X5: for one identifier the worker sends at most one record, and the
    record carries that identifier. The record is what [ParseTorrent] left
    of the body of one of the requests for the identifier, a body that
    starts with the document type; under [DEBUG] it is the record of an
    extraction without error. *)
Theorem process_sends_at_most_one_record i :
  (length (sent (process DEBUG http maxTries i).1) <= 1)%nat
  /\ forall t, t ∈ sent (process DEBUG http maxTries i).1 ->
       Id t = i
       /\ exists n body e,
           http i n = Body body
           /\ bytes.HasPrefix (contents body) doctype = true
           /\ ParseTorrent (contents body) (set_Id i new_Torrent) = (t, e)
           /\ (DEBUG = true -> e = None).
Proof.
  unfold process.
  destruct (start_sent (S (Z.to_nat maxTries)) i 0) as [Hlen Hfrom].
  split; [done|]. intros t Ht.
  destruct (Hfrom t Ht) as (n & body & e & Hb & Hp & Hparse & He).
  split; [|by exists n, body, e].
  pose proof (ParseTorrent_Id (contents body) (set_Id i new_Torrent)) as HId.
  by rewrite Hparse in HId.
Qed.

(** X6: with [maxTries] at zero or below the worker makes no request for
    any identifier: it reports the identifier as failed at once, and under
    [DEBUG] that ends the process at the first identifier. *)
Theorem no_tries_no_request i :
  maxTries <= 0 ->
  process DEBUG http maxTries i
  = if DEBUG then ([EvFatal ("Failed torrent " +:+ pretty i)], Exit)
    else ([EvLog ("Failed torrent " +:+ pretty i)], Next).
Proof.
  intros Hm. unfold process.
  replace (Z.to_nat maxTries) with 0%nat by lia.
  apply start_abandon; [unfold MaxInt64|]; lia.
Qed.

(** X7: a page with all ten fields. After any number of attempts that
    failed and were retried, a body that starts with the document type, has
    no not-found marker in the window [body[:300]] and is extracted without
    error ends the identifier: the record, with the identifier in it, is
    sent once, no error line and no failed line is logged, and there is no
    request after it. *)
Theorem good_page_is_sent_once i k body w t :
  Z.of_nat k < maxTries -> maxTries <= MaxInt64 ->
  (forall n, 1 <= n <= Z.of_nat k -> retryable (http i n)) ->
  http i (Z.of_nat k + 1) = Body body ->
  bytes.HasPrefix (contents body) doctype = true ->
  reslice body 300 = Some w ->
  bytes.Index w notFoundText < 0 ->
  ParseTorrent (contents body) (set_Id i new_Torrent) = (t, None) ->
  let r := process DEBUG http maxTries i in
  r = (retries DEBUG i 0 k ++ [EvGet (url_of i); EvSend t], Next)
  /\ sent r.1 = [t] /\ Id t = i
  /\ error_lines r.1 = [] /\ failed_lines r.1 = []
  /\ length (gets r.1) = S k.
Proof.
  intros Hk Hm Hfail Hb Hp Hw Hidx Hparse r.
  assert (r = (retries DEBUG i 0 k ++ [EvGet (url_of i); EvSend t], Next))
    as Hr.
  { subst r. rewrite (process_retries DEBUG http maxTries i k) by done.
    rewrite (start_body DEBUG http maxTries _ _ _ body) by (done || lia).
    rewrite Hw. destruct (Z.leb_spec 0 (bytes.Index w notFoundText)); [lia|].
    unfold deliver. by rewrite Hparse. }
  rewrite Hr. cbn [fst].
  rewrite sent_app, error_lines_app, failed_lines_app, gets_app, length_app,
    sent_retries, gets_retries.
  destruct (error_lines_retries DEBUG i 0 k) as [-> ->].
  split_and!; [done|done| |done|done|cbn; lia].
  pose proof (ParseTorrent_Id (contents body) (set_Id i new_Torrent)) as HId.
  by rewrite Hparse in HId.
Qed.

(** Without [DEBUG] an identifier ends with [continue] or the end of the
    loop body, as long as no body is too small for the window. *)
Lemma start_nonstrict_next fuel : forall i tries,
  DEBUG = false ->
  0 <= tries < MaxInt64 -> maxTries < MaxInt64 ->
  (Z.to_nat (maxTries - tries) < fuel)%nat ->
  (forall n body, http i n = Body body -> (300 <= cap body)%nat) ->
  (start DEBUG http maxTries fuel i tries).2 = Next.
Proof.
  intros i tries HD. revert i tries.
  induction fuel as [|fuel IH]; intros i tries Ht Hm Hfuel Hcap; [lia|].
  destruct (Z_lt_le_dec tries maxTries) as [Hlt|Hge].
  - assert ((start DEBUG http maxTries fuel i (tries + 1)).2 = Next) as IH'
        by (apply IH; [lia..|done]).
    destruct (http i (tries + 1)) as [| |body] eqn:Hresp.
    + by rewrite start_retry by (rewrite ?Hresp; done || lia).
    + by rewrite start_retry by (rewrite ?Hresp; done || lia).
    + destruct (bytes.HasPrefix (contents body) doctype) eqn:Hp.
      * rewrite (start_body _ _ _ _ _ _ body) by (done || lia).
        unfold reslice. pose proof (Hcap _ _ Hresp) as Hc.
        destruct (Nat.leb_spec 300 (cap body)); [|lia].
        destruct (0 <=? _); [done|].
        rewrite prepend_snd. unfold deliver. rewrite HD.
        by destruct (ParseTorrent _ _).2.
      * by rewrite start_retry by (rewrite ?Hresp; done || lia).
  - rewrite start_abandon by lia. by rewrite HD.
Qed.

Lemma range_ci_sent ci :
  sublist (Id <$> sent (range_ci DEBUG http maxTries ci).1) ci.
Proof.
  induction ci as [|i ci IH]; [cbn; constructor|].
  cbn [range_ci].
  assert (sublist (Id <$> sent (progress DEBUG i
                                 ++ (process DEBUG http maxTries i).1)) [i])
    as Hone.
  { rewrite sent_app.
    assert (sent (progress DEBUG i) = []) as -> by
        (unfold progress; by destruct (_ =? _)).
    cbn [app]. destruct (process_sent i)
      as [Hlen HId].
    destruct (sent (process DEBUG http maxTries i).1) as [|t [|t' l]];
      cbn in Hlen; [cbn; by constructor| |lia].
    cbn. rewrite (HId t) by (by left). by constructor. }
  destruct (process DEBUG http maxTries i).2.
  - rewrite prepend_fst, sent_app, fmap_app.
    change (i :: ci) with ([i] ++ ci). by apply sublist_app.
  - cbn [fst]. change (i :: ci) with ([i] ++ ci).
    by apply sublist_inserts_r.
  - cbn [fst]. change (i :: ci) with ([i] ++ ci).
    by apply sublist_inserts_r.
Qed.


Lemma start_loop_events fuel : forall i tries,
  Forall loop_event (start DEBUG http maxTries fuel i tries).1.
Proof.
  assert (forall i n r, Forall loop_event r.1 ->
            Forall loop_event
              (prepend (EvGet (url_of i) :: retry_events DEBUG i n) r).1)
    as Hretry.
  { intros i n r Hr. rewrite prepend_fst. apply Forall_app. split; [|done].
    unfold retry_events. destruct DEBUG; repeat constructor. }
  induction fuel as [|fuel IH]; intros i tries; [constructor|].
  cbn [start]. set (n := add64 tries 1).
  destruct (maxTries <? n); [destruct DEBUG; repeat constructor|].
  destruct (http i n) as [| |body]; [by apply Hretry..|].
  destruct (bytes.HasPrefix (contents body) doctype); cbn [negb];
    [|by apply Hretry].
  destruct (reslice body 300) as [w|]; [|repeat constructor].
  destruct (0 <=? _); [repeat constructor|].
  rewrite prepend_fst. apply Forall_app. split; [repeat constructor|].
  unfold deliver. destruct (ParseTorrent _ _).2; [destruct DEBUG|];
    repeat constructor.
Qed.

Lemma range_ci_loop_events ci :
  Forall loop_event (range_ci DEBUG http maxTries ci).1.
Proof.
  induction ci as [|i ci IH]; [constructor|]. cbn [range_ci].
  assert (Forall loop_event
            (progress DEBUG i ++ (process DEBUG http maxTries i).1)) as Hone.
  { apply Forall_app. split; [|apply start_loop_events].
    unfold progress. destruct (_ =? _); repeat constructor. }
  destruct (process DEBUG http maxTries i).2; [|done..].
  rewrite prepend_fst. by apply Forall_app.
Qed.

Lemma range_ci_gets ci :
  maxTries < MaxInt64 ->
  (length (gets (range_ci DEBUG http maxTries ci).1)
   <= length ci * Z.to_nat maxTries)%nat.
Proof.
  intros Hm. induction ci as [|i ci IH]; [cbn; lia|]. cbn [range_ci].
  assert (length (gets (progress DEBUG i
                        ++ (process DEBUG http maxTries i).1))
          <= Z.to_nat maxTries)%nat as Hone.
  { rewrite gets_app.
    assert (gets (progress DEBUG i) = []) as -> by
        (unfold progress; by destruct (_ =? _)).
    pose proof (start_gets_bound DEBUG http maxTries
                  (S (Z.to_nat maxTries)) i 0) as Hb.
    rewrite Z.sub_0_r in Hb. apply Hb; [unfold MaxInt64; lia|done]. }
  destruct (process DEBUG http maxTries i).2; cbn [fst length]; [|lia..].
  rewrite prepend_fst, gets_app, length_app. lia.
Qed.

(** X8: the records a worker sends, by their identifiers, are a sublist of
    the identifiers it received: at most one record for an identifier, none
    for an identifier it did not receive, and in the order received. In
    all, it makes at most [maxTries] requests for each identifier it
    received. *)
Theorem runner_sends_sublist_of_received ci :
  maxTries < MaxInt64 ->
  sublist (Id <$> sent (runner DEBUG http maxTries ci).1) ci
  /\ (length (gets (runner DEBUG http maxTries ci).1)
      <= length ci * Z.to_nat maxTries)%nat.
Proof.
  intros Hm. pose proof (range_ci_sent ci) as Hs.
  pose proof (range_ci_gets ci Hm) as Hg. unfold runner.
  destruct (range_ci DEBUG http maxTries ci) as [evs []]; cbn [fst snd] in *;
    [|done..].
  rewrite sent_app, gets_app, length_app.
  change (sent [EvLog "Goroutine done."; EvDone]) with (@nil Torrent).
  change (gets [EvLog "Goroutine done."; EvDone]) with (@nil string).
  rewrite !app_nil_r. split; [done|]. cbn [length]. lia.
Qed.

End WorkerMore.

(** X9: without [DEBUG], and when no body is too small for the window
    [body[:300]], a worker goes through every identifier it receives,
    whatever the network answers: its loop ends, and it logs that it is
    done and signals the wait group, once and as the last thing it does. *)
Theorem runner_finishes_and_signals_once `{Library} http maxTries ci :
  maxTries < MaxInt64 ->
  (forall i n body, http i n = Body body -> (300 <= cap body)%nat) ->
  exists evs,
    runner false http maxTries ci
    = (evs ++ [EvLog "Goroutine done."; EvDone], Next)
    /\ EvDone ∉ evs.
Proof.
  intros Hm Hcap.
  assert ((range_ci false http maxTries ci).2 = Next) as Hnext.
  { induction ci as [|i ci IH]; [done|]. cbn [range_ci].
    assert ((process false http maxTries i).2 = Next) as ->.
    { apply start_nonstrict_next; [done|unfold MaxInt64; lia|done|lia|].
      intros n body. apply Hcap. }
    by rewrite prepend_snd. }
  exists (range_ci false http maxTries ci).1. unfold runner. rewrite Hnext.
  split; [done|].
  pose proof (range_ci_loop_events false http maxTries ci) as Hev.
  intros Hin. rewrite Forall_forall in Hev. by apply Hev in Hin.
Qed.

Lemma url_of_inj i j : url_of i = url_of j -> i = j.
Proof.
  unfold url_of. intros Heq. apply (inj _) in Heq. by apply (inj pretty).
Qed.

(** X10: the requests for two identifiers go to two addresses: the address
    is the identifier in decimal after the path of the site. *)
Theorem distinct_identifiers_distinct_urls i j :
  i <> j -> url_of i <> url_of j.
Proof. intros Hne Heq. by apply Hne, url_of_inj. Qed.

(** ** The writer under [DEBUG], and the table *)

Lemma execs_EvExec l : execs (EvExec <$> l) = l.
Proof. induction l as [|t l IH]; [done|]. cbn. by rewrite <-IH at 2. Qed.

Lemma unlocks_EvExec l : unlocks (EvExec <$> l) = 0%nat.
Proof. by induction l. Qed.

Lemma logged_EvExec l : logged (EvExec <$> l) = [].
Proof. by induction l. Qed.

Section StrictWriter.

Context `{Database}.

(** The loop of the writer under [DEBUG]: all the inserts without an error,
    or the inserts up to the first that fails and the fatal line. *)
Lemma range_dbChan_strict dbChan : forall db,
  (List.filter failed (inserts dbChan db).2 = []
   /\ range_dbChan true dbChan db
      = ((inserts dbChan db).1, (EvExec <$> dbChan, Next)))
  \/ (exists pre t post e,
        dbChan = pre ++ t :: post
        /\ List.filter failed (inserts pre db).2 = []
        /\ (Exec (inserts pre db).1 t).2 = Some e
        /\ range_dbChan true dbChan db
           = ((Exec (inserts pre db).1 t).1,
              ((EvExec <$> pre)
               ++ [EvExec t; EvFatal (pretty (Id t) +:+ " " +:+ e)], Exit))).
Proof.
  induction dbChan as [|t dbChan IH]; intros db; [by left|].
  cbn [range_dbChan inserts].
  destruct (Exec db t) as [db' [e|]] eqn:Hx; cbn [fst snd].
  - right. exists [], t, dbChan, e. cbn [inserts fst snd app fmap list_fmap].
    rewrite Hx. by split_and!.
  - destruct (IH db') as [[Hok Hrun]|(pre & u & post & e & -> & Hok & He & Hrun)].
    + left. rewrite Hrun. cbn [List.filter failed fst snd]. split; [done|].
      reflexivity.
    + right. exists (t :: pre), u, post, e.
      cbn [inserts]. rewrite Hx. cbn [List.filter failed fst snd].
      rewrite Hrun. split_and!; [done..|]. reflexivity.
Qed.

(** X11: under [DEBUG] the writer logs no error line. When every insert
    succeeds it makes one insert for each record and unlocks the mutex
    once. Otherwise the first insert that fails is fatal: the records before
    it are inserted, the records after it are not, and the mutex is never
    unlocked. *)
Theorem strict_writer_stops_at_first_failure dbChan db :
  error_lines (writer true dbChan db).2.1 = []
  /\ (List.filter failed (inserts dbChan db).2 = [] ->
      writer true dbChan db
      = ((inserts dbChan db).1, ((EvExec <$> dbChan) ++ [EvUnlock], Next)))
  /\ (List.filter failed (inserts dbChan db).2 <> [] ->
      exists pre t post e,
        dbChan = pre ++ t :: post
        /\ List.filter failed (inserts pre db).2 = []
        /\ (Exec (inserts pre db).1 t).2 = Some e
        /\ writer true dbChan db
           = ((Exec (inserts pre db).1 t).1,
              ((EvExec <$> pre)
               ++ [EvExec t; EvFatal (pretty (Id t) +:+ " " +:+ e)], Exit))
        /\ execs (writer true dbChan db).2.1 = pre ++ [t]
        /\ unlocks (writer true dbChan db).2.1 = 0%nat).
Proof.
  unfold writer.
  destruct (range_dbChan_strict dbChan db)
    as [[Hok Hrun]|(pre & t & post & e & Hd & Hok & He & Hrun)];
    rewrite Hrun; cbn [fst snd].
  - split_and!; [|done|by rewrite Hok].
    unfold error_lines. by rewrite logged_app, logged_EvExec.
  - split_and!.
    + unfold error_lines. by rewrite logged_app, logged_EvExec.
    + intros Hall. exfalso. subst dbChan. clear Hrun.
      revert db Hall Hok He. induction pre as [|u pre IH]; intros db Hall Hok He.
      * cbn [inserts app fst snd] in *. rewrite He in Hall. discriminate.
      * cbn [inserts app fst snd] in *.
        destruct (Exec db u).2; cbn [List.filter failed] in *; [discriminate|].
        by eapply IH.
    + intros _. exists pre, t, post, e. split_and!; [done..| |].
      * by rewrite execs_app, execs_EvExec.
      * by rewrite unlocks_app, unlocks_EvExec.
Qed.

End StrictWriter.

(** The rows after a sequence of inserts: a row that is there stays, and a
    free key gets the first record that has it. *)
Lemma inserts_lookup records : forall (db : gmap Z Torrent) k,
  (inserts records db).1 !! k
  = match db !! k with
    | Some row => Some row
    | None => List.find (fun t => Id t =? k) records
    end.
Proof.
  induction records as [|t records IH]; intros db k.
  { cbn. by destruct (db !! k). }
  cbn [inserts Exec Torrents_table fst snd List.find].
  change (@Store Torrents_table) with (gmap Z Torrent) in *.
  rewrite IH. unfold insert_row.
  destruct (db !! Id t) as [row|] eqn:Hrow; cbn [fst].
  - destruct (db !! k) eqn:Hk; [done|].
    destruct (Z.eqb_spec (Id t) k) as [Heq|]; [congruence|done].
  - destruct (Z.eqb_spec (Id t) k) as [Heq|Hne].
    + rewrite <-Heq. by rewrite lookup_insert_eq, Hrow.
    + by rewrite lookup_insert_ne.
Qed.

(** Records with keys that are free and differ from each other are all
    inserted. *)
Lemma inserts_fresh records : forall db : gmap Z Torrent,
  NoDup (Id <$> records) ->
  (forall t, t ∈ records -> db !! Id t = None) ->
  List.filter failed (inserts records db).2 = []
  /\ forall t, t ∈ records -> (inserts records db).1 !! Id t = Some t.
Proof.
  induction records as [|t records IH]; intros db Hnd Hfree.
  { split; [done|]. intros t Ht. by apply elem_of_nil in Ht. }
  cbn [fmap list_fmap] in Hnd. apply NoDup_cons in Hnd as [Hnot Hnd].
  cbn [inserts Exec Torrents_table fst snd].
  change (@Store Torrents_table) with (gmap Z Torrent) in *.
  unfold insert_row at 1 3. rewrite (Hfree t) by left. cbn [fst snd].
  destruct (IH (<[Id t:=t]> db) Hnd) as [Hok Hrows].
  { intros u Hu. rewrite lookup_insert_ne; [apply Hfree; by right|].
    intros Heq. apply Hnot. rewrite Heq. by apply list_elem_of_fmap_2. }
  unfold insert_row. rewrite (Hfree t) by left. cbn [fst snd List.filter failed].
  split; [done|]. intros u [->|Hu]%elem_of_cons; [|by apply Hrows].
  rewrite inserts_lookup. by rewrite lookup_insert_eq.
Qed.

(** X12: the table after the writer, without [DEBUG]: a row that was in the
    table is as it was, whatever was sent for its key, and a key that was
    free holds the first record received with that identifier, if there is
    one; later records with the identifier are rejected. *)
Theorem writer_keeps_rows_first_record_wins dbChan (db : gmap Z Torrent) k :
  (writer false dbChan db).1 !! k
  = match db !! k with
    | Some row => Some row
    | None => List.find (fun t => Id t =? k) dbChan
    end.
Proof.
  destruct (@range_dbChan_nonstrict Torrents_table dbChan db)
    as (Ho & _ & _ & Hdb & _).
  unfold writer. rewrite Ho. cbn [fst snd].
  change (@Store Torrents_table) with (gmap Z Torrent) in *.
  rewrite Hdb. apply inserts_lookup.
Qed.

(** ** One worker, end to end *)

Lemma dispatcher_in_range startOffset latest :
  in_int64 startOffset -> 0 <= latest -> startOffset + latest < MaxInt64 ->
  dispatcher startOffset latest
  = ((EvId <$> seqZ (startOffset + 1) latest) ++ [EvClose], Next).
Proof.
  intros Hs Hl Hsum. unfold in_int64, MinInt64, MaxInt64 in *.
  unfold dispatcher, add64.
  rewrite !wrap64_id by (unfold in_int64, MinInt64, MaxInt64; lia).
  rewrite (dispatch_seqZ (Z.to_nat latest));
    [|unfold MinInt64, MaxInt64; lia..].
  rewrite Z2Nat.id by lia. by rewrite (Z.add_comm 1).
Qed.

Lemma runner_sent `{Library} DEBUG http maxTries ci :
  sent (runner DEBUG http maxTries ci).1
  = sent (range_ci DEBUG http maxTries ci).1.
Proof.
  unfold runner. destruct (range_ci DEBUG http maxTries ci).2; [|done..].
  cbn [fst]. rewrite sent_app. apply app_nil_r.
Qed.

(** The store after a run that reaches its end is the store after the
    inserts of the records that the worker sent. [latest] is the count of
    the loop: what [getLatest] returned, or 50000 under [DEBUG]. *)
Lemma crawl_store `{Library} (DEBUG : bool) http maxTries startOffset latest
    (db db' : gmap Z Torrent) evs :
  let count := if DEBUG then 50000 else latest in
  in_int64 startOffset -> 0 <= count -> startOffset + count < MaxInt64 ->
  crawl DEBUG http maxTries startOffset latest db = Some (db', evs) ->
  db' = (inserts (sent (runner DEBUG http maxTries
                          (seqZ (startOffset + 1) count)).1) db).1.
Proof.
  intros count Hs Hl Hsum. unfold crawl. fold count.
  rewrite dispatcher_in_range by done. cbn [fst snd].
  rewrite ids_app, ids_EvId. cbn [ids omap]. rewrite app_nil_r.
  set (records := sent (runner DEBUG http maxTries
                          (seqZ (startOffset + 1) count)).1).
  destruct (runner DEBUG http maxTries (seqZ (startOffset + 1) count)).2;
    [|discriminate..].
  unfold writer. clearbody count. destruct DEBUG.
  - destruct (@range_dbChan_strict Torrents_table records db)
      as [[_ ->]|(pre & t & post & e & _ & _ & _ & ->)]; cbn [fst snd].
    + by intros [= <- _].
    + discriminate.
  - destruct (@range_dbChan_nonstrict Torrents_table records db)
      as (Ho & _ & _ & Hdb & _).
    rewrite Ho. cbn [fst snd]. intros [= <- _]. exact Hdb.
Qed.

(** X13: a run with one worker that reaches its end, on a store that has
    no row yet for the identifiers of the range (as the new store of a run
    from offset 0): every record that the worker sent is the row of its
    identifier, the rows that were there are as they were, every new row is
    the record of an identifier of the range, and there are as many new
    rows as records sent. The range is that of the loop of [main]: its
    count is what [getLatest] returned, or 50000 under [DEBUG]. *)
Theorem fresh_run_stores_every_record `{Library} (DEBUG : bool) http maxTries
    startOffset latest (db db' : gmap Z Torrent) evs :
  let count := if DEBUG then 50000 else latest in
  in_int64 startOffset -> 0 <= count -> startOffset + count < MaxInt64 ->
  (forall k, startOffset + 1 <= k <= startOffset + count -> db !! k = None) ->
  crawl DEBUG http maxTries startOffset latest db = Some (db', evs) ->
  let records :=
    sent (runner DEBUG http maxTries (seqZ (startOffset + 1) count)).1 in
  (forall t, t ∈ records -> db' !! Id t = Some t)
  /\ (forall k row, db !! k = Some row -> db' !! k = Some row)
  /\ (forall k, db !! k = None -> is_Some (db' !! k) ->
        startOffset + 1 <= k <= startOffset + count
        /\ exists t, t ∈ records /\ Id t = k)
  /\ size db' = (size db + length records)%nat.
Proof.
  intros count Hs Hl Hsum Hfree Hrun records.
  pose proof (crawl_store DEBUG _ _ _ _ _ _ _ Hs Hl Hsum Hrun) as Hdb.
  fold count in Hdb. fold records in Hdb. clearbody count.
  assert (sublist (Id <$> records) (seqZ (startOffset + 1) count)) as Hsub.
  { subst records. rewrite runner_sent. apply range_ci_sent. }
  assert (forall t, t ∈ records ->
            startOffset + 1 <= Id t <= startOffset + count) as Hin.
  { intros t Ht.
    assert (Id t ∈ seqZ (startOffset + 1) count) as Hid.
    { apply sublist_subseteq in Hsub. apply Hsub.
      by apply list_elem_of_fmap_2. }
    apply elem_of_seqZ in Hid. lia. }
  assert (NoDup (Id <$> records)) as Hnd.
  { exact (sublist_NoDup _ _ (NoDup_seqZ _ _) Hsub). }
  destruct (inserts_fresh records db Hnd) as [Hok Hrows].
  { intros t Ht. by apply Hfree, Hin. }
  destruct (inserts_table records db) as (_ & _ & Hsize).
  change (@Store Torrents_table) with (gmap Z Torrent) in *.
  rewrite Hok in Hsize. cbn [length] in Hsize.
  subst db'. split_and!.
  - done.
  - intros k row Hk. by rewrite inserts_lookup, Hk.
  - intros k Hk [row Hrow]. rewrite inserts_lookup, Hk in Hrow.
    apply List.find_some in Hrow as [Hrow Heq%Z.eqb_eq].
    apply list_elem_of_In in Hrow. split; [rewrite <-Heq; by apply Hin|].
    by exists row.
  - lia.
Qed.

(** ** The dispatcher at the end of the integers *)

Lemma wrap64_range z : in_int64 (wrap64 z).
Proof.
  unfold in_int64, wrap64, MinInt64, MaxInt64.
  pose proof (Z.mod_pos_bound (z + 2 ^ 63) (2 ^ 64)). lia.
Qed.

Lemma dispatch_never_closes fuel : forall i,
  in_int64 i ->
  (dispatch fuel i MaxInt64).2 = OutOfFuel
  /\ (EvClose ∉ (dispatch fuel i MaxInt64).1)
  /\ length (ids (dispatch fuel i MaxInt64).1) = fuel.
Proof.
  induction fuel as [|fuel IH]; intros i Hi.
  { split_and!; [done| |done]. cbn. not_in_list. }
  cbn [dispatch]. destruct (Z.leb_spec i MaxInt64) as [_|Hgt].
  2: { unfold in_int64 in Hi. lia. }
  destruct (IH (add64 i 1)) as (Ho & Hc & Hn); [apply wrap64_range|].
  rewrite prepend_fst, prepend_snd, ids_app, length_app.
  split_and!; [done| |cbn; lia].
  apply not_elem_of_app. split; [not_in_list|done].
Qed.

(** X14: when the start offset and the count add up to the largest [int],
    the loop of the dispatcher has no end: its test holds for every [int],
    so it sends an identifier at every turn, wraps around to the negative
    ones, and never closes the channel. *)
Theorem dispatcher_at_largest_int_never_closes startOffset latest fuel :
  in_int64 startOffset -> in_int64 latest ->
  startOffset + latest = MaxInt64 ->
  (dispatcher startOffset latest).2 = OutOfFuel
  /\ (dispatch fuel (add64 1 startOffset) (add64 latest startOffset)).2
     = OutOfFuel
  /\ (EvClose ∉ (dispatch fuel (add64 1 startOffset)
                          (add64 latest startOffset)).1)
  /\ length (ids (dispatch fuel (add64 1 startOffset)
                           (add64 latest startOffset)).1) = fuel.
Proof.
  intros Hs Hl Hsum. unfold dispatcher.
  assert (add64 latest startOffset = MaxInt64) as ->.
  { unfold add64. rewrite Z.add_comm, Hsum. by apply wrap64_id. }
  split; [|apply dispatch_never_closes, wrap64_range].
  apply dispatch_never_closes, wrap64_range.
Qed.

(** The sum of the start offset and the count beyond [int]: the upper
    bound wraps around to a negative number. *)
Lemma add64_wraps latest startOffset :
  in_int64 startOffset -> in_int64 latest ->
  MaxInt64 < startOffset + latest ->
  add64 latest startOffset = latest + startOffset - 2 ^ 64.
Proof.
  unfold in_int64, MinInt64, MaxInt64, add64, wrap64. intros Hs Hl Hsum.
  replace (latest + startOffset + 2 ^ 63)
    with (latest + startOffset - 2 ^ 63 + 1 * 2 ^ 64) by lia.
  rewrite Z.mod_add by lia. rewrite Z.mod_small by lia. lia.
Qed.

(** Where the range [startOffset + 1 .. startOffset + latest] ends at the
    largest [int], the dispatcher sends it and goes on with the smallest
    [int]s, without ever closing the channel; where it would end beyond,
    the dispatcher sends nothing of it, not even the largest [int] that is
    in it. *)
Lemma dispatcher_fails_at_the_largest_int :
  in_int64 (MaxInt64 - 1) /\ 0 <= 1 /\ 0 <= 2
  /\ seqZ (MaxInt64 - 1 + 1) 1 = [MaxInt64]
  /\ ids (dispatch 3 (add64 1 (MaxInt64 - 1)) (add64 1 (MaxInt64 - 1))).1
     = [MaxInt64; MinInt64; MinInt64 + 1]
  /\ (forall fuel,
        (dispatch fuel (add64 1 (MaxInt64 - 1)) (add64 1 (MaxInt64 - 1))).2
        = OutOfFuel
        /\ (EvClose ∉ (dispatch fuel (add64 1 (MaxInt64 - 1))
                                (add64 1 (MaxInt64 - 1))).1))
  /\ (MaxInt64 ∈ seqZ (MaxInt64 - 1 + 1) 2)
  /\ dispatcher (MaxInt64 - 1) 2 = ([EvClose], Next).
Proof.
  assert (add64 1 (MaxInt64 - 1) = MaxInt64) as Hi by reflexivity.
  split; [split; discriminate|].
  split; [lia|]. split; [lia|].
  split; [vm_compute; reflexivity|].
  split; [vm_compute; reflexivity|].
  split; [|split; [|vm_compute; reflexivity]].
  - intros fuel. rewrite Hi.
    destruct (dispatch_never_closes fuel MaxInt64) as (Ho & Hc & _);
      [split; discriminate|done].
  - apply elem_of_seqZ. unfold MaxInt64. lia.
Qed.

(** A run whose range would end beyond the largest [int] reaches its end
    with nothing requested and nothing stored. *)
Example scenario_beyond_largest_int :
  crawl false run.down 2 (MaxInt64 - 1) 2 (∅ : gmap Z Torrent)
  = Some ((∅ : gmap Z Torrent),
          [EvClose; EvLog "Goroutine done."; EvDone; EvUnlock;
           EvLog "Done."]).
Proof. vm_compute. reflexivity. Qed.

(** X15: when the start offset and the count add up to more than the
    largest [int], the upper bound of the loop wraps around to a negative
    number. For a start offset below the largest [int] it is then below the
    lower bound: the dispatcher sends no identifier and closes the channel
    at once. For the largest [int] as start offset the lower bound wraps
    around too, to the smallest [int]: the dispatcher sends the [latest]
    smallest [int]s in increasing order and then closes the channel. *)
Theorem dispatcher_beyond_largest_int_wraps startOffset latest :
  in_int64 startOffset -> in_int64 latest ->
  MaxInt64 < startOffset + latest ->
  (startOffset < MaxInt64 ->
   dispatcher startOffset latest = ([EvClose], Next))
  /\ (startOffset = MaxInt64 ->
      dispatcher startOffset latest
      = ((EvId <$> seqZ MinInt64 latest) ++ [EvClose], Next)).
Proof.
  intros Hs Hl Hsum. unfold dispatcher.
  rewrite (add64_wraps latest startOffset) by done.
  unfold in_int64, MinInt64, MaxInt64 in *. split.
  - intros Hlt.
    assert (add64 1 startOffset = 1 + startOffset) as ->.
    { apply wrap64_id. unfold in_int64, MinInt64, MaxInt64. lia. }
    replace (Z.to_nat (latest + startOffset - 2 ^ 64 - (1 + startOffset) + 1))
      with 0%nat by lia.
    cbn [dispatch].
    destruct (Z.leb_spec (1 + startOffset) (latest + startOffset - 2 ^ 64));
      [lia|done].
  - intros ->.
    assert (add64 1 9223372036854775807 = -9223372036854775808) as ->
        by reflexivity.
    rewrite (dispatch_seqZ (Z.to_nat latest));
      [|unfold MinInt64, MaxInt64; lia..].
    by rewrite Z2Nat.id by lia.
Qed.

(** ** [stripTags] *)

(** The lazy repetition before the closing [>]: it stops at the first
    [>], and fails when there is none. *)
Lemma backtrack_to_gt s : forall p,
  is_Some (backtrack [Rep any false; Chr ">"] s p) <-> has_gt s = true.
Proof.
  induction s as [|c s IH]; intros p; rewrite backtrack_rep; cbn zeta.
  { cbn. split; [by intros [? ?]|discriminate]. }
  cbn [backtrack has_gt any]. destruct (Ascii.eqb ">" c); cbn [orb].
  - split; [done|]. by eexists.
  - apply IH.
Qed.

(** The matcher on [stripTagsRegexp] says whether a tag starts. *)
Lemma backtrack_tag_start s p :
  is_Some (backtrack stripTagsRegexp s p) <-> tag_start s = true.
Proof.
  unfold stripTagsRegexp, plus. cbn [lit app].
  destruct s as [|c [|d s]]; cbn [backtrack tag_start any].
  - split; [by intros [? ?]|discriminate].
  - destruct (Ascii.eqb "<" c); (split; [by intros [? ?]|discriminate]).
  - destruct (Ascii.eqb "<" c); cbn [andb].
    + apply backtrack_to_gt.
    + split; [by intros [? ?]|discriminate].
Qed.

Lemma backtrack_no_tag s p :
  backtrack stripTagsRegexp s p = None <-> tag_start s = false.
Proof.
  rewrite <-not_true_iff_false, <-backtrack_tag_start.
  rewrite <-eq_None_not_Some. done.
Qed.

(** What is cut keeps no [>] that was not there. *)
Lemma cut_has_gt s : forall k,
  has_gt s = false -> has_gt (cut stripTagsRegexp k s) = false.
Proof.
  induction s as [|c s IH]; intros k; [done|].
  cbn [has_gt cut]. intros [Hc Hs]%orb_false_elim.
  destruct k as [|k]; [|by apply IH].
  destruct (backtrack _ _ _); [by apply IH|].
  cbn [has_gt]. by rewrite Hc, IH.
Qed.

(** After the cut no tag is left. *)
Lemma cut_tagless s : forall k, tagless (cut stripTagsRegexp k s) = true.
Proof.
  induction s as [|c s IH]; intros k; [done|].
  cbn [cut]. destruct k as [|k]; [|apply IH].
  destruct (backtrack stripTagsRegexp (String c s) (mkPos 0 0 0)) eqn:Hb;
    [apply IH|].
  apply backtrack_no_tag in Hb.
  cbn [tagless]. rewrite IH, andb_true_r. apply negb_true_iff.
  destruct s as [|d s]; [done|].
  cbn [tag_start] in Hb. apply andb_false_iff in Hb as [Hc|Hgt].
  { destruct (cut stripTagsRegexp 0 (String d s)) as [|x X];
      cbn [tag_start]; [done|]. by rewrite Hc. }
  assert (match cut stripTagsRegexp 0 (String d s) with
          | String _ X => has_gt X
          | EmptyString => false
          end = false) as Htail.
  { cbn [cut]. destruct (backtrack stripTagsRegexp (String d s) _).
    - pose proof (cut_has_gt s (Nat.pred (at_ p)) Hgt) as Hcut.
      destruct (cut stripTagsRegexp _ s) as [|x X]; [done|].
      cbn [has_gt] in Hcut. by apply orb_false_elim in Hcut as [_ ?].
    - by apply cut_has_gt. }
  destruct (cut stripTagsRegexp 0 (String d s)) as [|x X];
    cbn [tag_start]; [done|].
  rewrite Htail. apply andb_false_r.
Qed.

(** Where no tag starts, nothing is cut. *)
Lemma cut_of_tagless s : tagless s = true -> cut stripTagsRegexp 0 s = s.
Proof.
  induction s as [|c s IH]; [done|].
  cbn [tagless cut]. intros [Hc Hs]%andb_prop.
  apply negb_true_iff, (backtrack_no_tag _ (mkPos 0 0 0)) in Hc.
  rewrite Hc. by rewrite IH.
Qed.

(** The search finds nothing exactly where no tag starts. *)
Lemma search_tagless s : forall from,
  search stripTagsRegexp s from = None <-> tagless s = true.
Proof.
  induction s as [|c s IH]; intros from; cbn [search tagless].
  { by destruct (backtrack stripTagsRegexp EmptyString _) eqn:Hb. }
  destruct (backtrack stripTagsRegexp (String c s) (mkPos from 0 0)) eqn:Hb.
  - assert (tag_start (String c s) = true) as ->
        by (apply (backtrack_tag_start _ (mkPos from 0 0)); by rewrite Hb).
    done.
  - apply backtrack_no_tag in Hb. rewrite Hb. cbn [negb andb]. apply IH.
Qed.

Lemma FindSubmatch_tagless s :
  FindSubmatch stripTagsRegexp s = None <-> tagless s = true.
Proof.
  rewrite <-(search_tagless s 0). unfold FindSubmatch.
  by destruct (search stripTagsRegexp s 0) as [[? ?]|].
Qed.

(** X16: [stripTags] leaves no tag: the pattern of a tag matches nowhere in
    what it returns. *)
Theorem stripTags_leaves_no_tag s :
  FindSubmatch stripTagsRegexp (stripTags s) = None.
Proof. apply FindSubmatch_tagless, cut_tagless. Qed.

(** X17: [stripTags] returns a text in which the pattern of a tag matches
    nowhere as it is, and stripping twice is stripping once. *)
Theorem stripTags_keeps_text_without_tags s :
  (FindSubmatch stripTagsRegexp s = None -> stripTags s = s)
  /\ stripTags (stripTags s) = stripTags s.
Proof.
  split.
  - intros Hs%FindSubmatch_tagless. by apply cut_of_tagless.
  - apply cut_of_tagless, cut_tagless.
Qed.

(** ** The start of [main] *)

Lemma lang_nil w : lang [] w -> w = EmptyString.
Proof. intros (p & r & Hm). by inversion Hm. Qed.

Lemma lang_lit_only s w : lang (lit s) w -> w = s.
Proof.
  rewrite <-(app_nil_r (lit s)).
  intros (w' & -> & ->%lang_nil)%lang_lit. apply append_nil_r.
Qed.

(** X18: when [getLatest] returns, its number is between 0 and the largest
    [int]. The page has a link to a torrent in it, the path followed by a
    non-empty string of digits and a slash, and the number is the value of
    the digits, or the largest [int] when the value is beyond it: the range
    error of the conversion is dropped. *)
Theorem getLatest_in_range recent n :
  getLatest recent = Some n ->
  0 <= n <= MaxInt64
  /\ exists body pre digits post v,
      recent = Body body
      /\ contents body
         = pre +:+ ("<a href=" +:+ dq +:+ "/torrent/") +:+ digits
           +:+ "/" +:+ post
      /\ digits <> EmptyString
      /\ all_in digit digits = true
      /\ strconv.unsigned digits = Some v
      /\ n = Z.min v MaxInt64.
Proof.
  unfold getLatest. destruct recent as [| |body]; [discriminate..|].
  destruct (FindSubmatch torrentLink (contents body)) as [m|] eqn:Hm;
    [|discriminate].
  intros [= <-].
  change torrentLink
    with (grouped (lit ("<a href=" +:+ dq +:+ "/torrent/"))
                  (plus digit true) (lit "/")) in Hm.
  apply FindSubmatch_grouped in Hm
    as (pre & wa & wg & wc & post & Hb & Hwa & Hwg & Hwc & ->); [|done..].
  apply lang_lit_only in Hwa as ->. apply lang_lit_only in Hwc as ->.
  apply lang_plus in Hwg as [Hne Hall].
  destruct (ParseInt_digits _ Hne Hall) as (v & Hv & Hu & Hp).
  cbn [sub1 nth]. unfold strconv.Atoi, strconv.IntSize. rewrite Hp.
  assert (0 <= (if 2 ^ 63 <=? v then (MaxInt64, Some strconv.ErrRange)
                else (v, None)).1 <= MaxInt64
          /\ (if 2 ^ 63 <=? v then (MaxInt64, Some strconv.ErrRange)
              else (v, None)).1 = Z.min v MaxInt64) as [Hr Hmin].
  { unfold MaxInt64. destruct (Z.leb_spec (2 ^ 63) v); cbn [fst]; lia. }
  split; [done|]. by exists body, pre, wg, post, v.
Qed.

(** Decimal digits, written and read. *)
Lemma pretty_N_char_digit n :
  (n < 10)%N ->
  digit (pretty_N_char n) = true
  /\ Z.of_nat (nat_of_ascii (pretty_N_char n)) - 48 = Z.of_N n.
Proof.
  intros Hn.
  assert (N.to_nat n < 10)%nat as Hk by lia. clear Hn.
  replace n with (N.of_nat (N.to_nat n)) by apply N2Nat.id.
  revert Hk. generalize (N.to_nat n). clear n. intros k Hk.
  do 10 (destruct k as [|k]; [done|]). lia.
Qed.

Lemma digits_pretty_N_go x : forall s,
  exists k, 0 < k /\ forall acc,
    strconv.digits acc (pretty_N_go x s)
    = strconv.digits (acc * k + Z.of_N x) s.
Proof.
  induction (N.lt_wf_0 x) as [x _ IH]; intros s.
  destruct (N.eq_dec x 0%N) as [->|Hx].
  { exists 1. split; [lia|]. intros acc. rewrite pretty_N_go_0.
    f_equal. lia. }
  rewrite pretty_N_go_step by lia.
  destruct (IH (x `div` 10)%N) with
    (s := String (pretty_N_char (x `mod` 10)) s) as (k & Hk & Hd).
  { apply N.div_lt; lia. }
  exists (10 * k). split; [lia|]. intros acc. rewrite Hd.
  destruct (pretty_N_char_digit (x `mod` 10)) as [Hc Hv].
  { apply N.mod_lt. lia. }
  cbn [strconv.digits]. rewrite Hc, Hv. f_equal.
  rewrite (N.div_mod x 10) at 3 by lia. lia.
Qed.

Lemma pretty_N_go_starts x : forall s,
  starts_with_digit s = true -> starts_with_digit (pretty_N_go x s) = true.
Proof.
  induction (N.lt_wf_0 x) as [x _ IH]; intros s Hs.
  destruct (N.eq_dec x 0%N) as [->|Hx]; [by rewrite pretty_N_go_0|].
  rewrite pretty_N_go_step by lia. apply IH; [apply N.div_lt; lia|].
  cbn. apply pretty_N_char_digit, N.mod_lt. lia.
Qed.

(** The decimal text of a positive number is read back as the number. *)
Lemma unsigned_pretty_pos p :
  starts_with_digit (pretty (Npos p)) = true
  /\ strconv.unsigned (pretty (Npos p)) = Some (Zpos p).
Proof.
  unfold pretty, pretty_N. destruct (decide (N.pos p = 0%N)); [done|].
  rewrite pretty_N_go_step by lia.
  assert (starts_with_digit
            (pretty_N_go (N.pos p `div` 10)
               (String (pretty_N_char (N.pos p `mod` 10)) EmptyString))
          = true) as Hstart.
  { apply pretty_N_go_starts. cbn. by apply pretty_N_char_digit, N.mod_lt. }
  split; [done|]. unfold strconv.unsigned.
  destruct (pretty_N_go _ _) as [|c s] eqn:Hs; [done|]. rewrite <-Hs.
  rewrite <-pretty_N_go_step by lia.
  destruct (digits_pretty_N_go (N.pos p) EmptyString) as (k & _ & ->).
  cbn. f_equal.
Qed.

(** [strconv.Atoi] reads the decimal text of an [int] back. *)
Lemma Atoi_pretty z : in_int64 z -> strconv.Atoi (pretty z) = (z, None).
Proof.
  unfold in_int64, MinInt64, MaxInt64. intros Hz.
  destruct z as [|p|p]; [done| |].
  - change (pretty (Z.pos p)) with (pretty (N.pos p)).
    destruct (unsigned_pretty_pos p) as [Hstart Hu].
    unfold strconv.Atoi, strconv.ParseInt, strconv.IntSize.
    destruct (pretty (N.pos p)) as [|c s]; [done|].
    rewrite (digit_not_sign c s Hstart), Hu.
    change (2 ^ (64 - 1)) with (2 ^ 63). cbn [negb andb].
    destruct (Z.leb_spec (2 ^ 63) (Z.pos p)); [lia|done].
  - change (pretty (Z.neg p)) with ("-" +:+ pretty (N.pos p)).
    destruct (unsigned_pretty_pos p) as [_ Hu].
    unfold strconv.Atoi, strconv.ParseInt, strconv.IntSize.
    change ("-" +:+ pretty (N.pos p)) with (String "-" (pretty (N.pos p))).
    cbn iota. rewrite Hu. change (2 ^ (64 - 1)) with (2 ^ 63).
    cbn [negb andb].
    destruct (Z.ltb_spec (2 ^ 63) (Z.pos p)); [lia|done].
Qed.

(** X19: [parseArgs] reads its command line back. For the name of the
    program followed by the decimal texts of three [int]s, the number of
    workers, the maximum of tries and the start offset in that order, it
    returns the three numbers as (maximum of tries, workers, offset),
    whatever follows on the line; without the third the offset is 0. *)
Theorem parseArgs_reads_decimal name runnersNum maxTries startOffset more :
  in_int64 runnersNum -> in_int64 maxTries -> in_int64 startOffset ->
  parseArgs (name :: pretty runnersNum :: pretty maxTries
             :: pretty startOffset :: more)
  = Some (maxTries, runnersNum, startOffset)
  /\ parseArgs [name; pretty runnersNum; pretty maxTries]
     = Some (maxTries, runnersNum, 0).
Proof.
  intros Hr Hm Hs. unfold parseArgs. cbn [length nth Nat.ltb Nat.leb].
  by rewrite !Atoi_pretty.
Qed.

(** ** A worker that is stopped, and the cost of giving up *)

Section WorkerStops.

Context `{Library}.
Variable DEBUG : bool.
Variable http : Z -> Z -> Response.
Variable maxTries : Z.

Lemma range_ci_app ci1 ci2 :
  (range_ci DEBUG http maxTries ci1).2 = Next ->
  range_ci DEBUG http maxTries (ci1 ++ ci2)
  = prepend (range_ci DEBUG http maxTries ci1).1
            (range_ci DEBUG http maxTries ci2).
Proof.
  induction ci1 as [|i ci1 IH]; cbn [app range_ci].
  { intros _. by destruct (range_ci DEBUG http maxTries ci2). }
  destruct (process DEBUG http maxTries i).2 eqn:Ho; [|discriminate..].
  rewrite prepend_snd. intros Hnext. rewrite IH by done.
  unfold prepend. cbn [fst snd]. by rewrite app_assoc.
Qed.

(** X20: an identifier that ends the process, by [log.Fatal] under [DEBUG]
    or by the panic of the slice expression, is the last the worker
    touches: whatever identifiers come after it on the channel, there is no
    request for them, and the worker neither logs that it is done nor
    signals the wait group. *)
Theorem runner_stops_at_fatal_identifier ci1 i ci2 :
  (range_ci DEBUG http maxTries ci1).2 = Next ->
  (process DEBUG http maxTries i).2 = Exit ->
  runner DEBUG http maxTries (ci1 ++ i :: ci2)
  = ((range_ci DEBUG http maxTries ci1).1
     ++ progress DEBUG i ++ (process DEBUG http maxTries i).1, Exit)
  /\ (EvDone ∉ (runner DEBUG http maxTries (ci1 ++ i :: ci2)).1).
Proof.
  intros Hnext Hexit.
  assert (runner DEBUG http maxTries (ci1 ++ i :: ci2)
          = ((range_ci DEBUG http maxTries ci1).1
             ++ progress DEBUG i ++ (process DEBUG http maxTries i).1, Exit))
    as Hr.
  { unfold runner. rewrite range_ci_app by done. cbn [range_ci].
    rewrite Hexit. by rewrite prepend_snd. }
  split; [done|]. rewrite Hr. cbn [fst].
  pose proof (range_ci_loop_events DEBUG http maxTries ci1) as H1.
  pose proof (start_loop_events DEBUG http maxTries
                (S (Z.to_nat maxTries)) i 0) as H2.
  fold (process DEBUG http maxTries i) in H2.
  rewrite Forall_forall in H1, H2.
  rewrite !not_elem_of_app. split_and!.
  - intros Hin. by apply H1 in Hin.
  - unfold progress. destruct (_ =? _); not_in_list.
  - intros Hin. by apply H2 in Hin.
Qed.

End WorkerStops.

Lemma sum_seqZ c k : forall m,
  2 * foldr Z.add 0 ((fun n => n * c) <$> seqZ m (Z.of_nat k))
  = Z.of_nat k * (2 * m + Z.of_nat k - 1) * c.
Proof.
  induction k as [|k IH]; intros m.
  { change (Z.of_nat 0) with 0. rewrite seqZ_nil by lia. cbn. lia. }
  rewrite seqZ_cons by lia.
  replace (Z.pred (Z.of_nat (S k))) with (Z.of_nat k) by lia.
  cbn [fmap list_fmap foldr]. fold (fmap (M:=list) (fun n => n * c)).
  specialize (IH (Z.succ m)). nia.
Qed.

(** X21: what giving up costs. When every attempt for an identifier fails
    in a way that is retried, the worker sleeps after each of the
    [maxTries] attempts, after the last one too, for 1, 2, ... [maxTries]
    seconds: [maxTries] ([maxTries] + 1) / 2 seconds in all before the
    identifier is reported as failed. *)
Theorem abandoned_identifier_sleeps `{Library} DEBUG http maxTries i :
  0 <= maxTries -> maxTries * Second <= MaxInt64 ->
  (forall n, 1 <= n <= maxTries -> retryable (http i n)) ->
  sleeps (process DEBUG http maxTries i).1
  = (fun n => n * Second) <$> seqZ 1 maxTries
  /\ 2 * foldr Z.add 0 (sleeps (process DEBUG http maxTries i).1)
     = maxTries * (maxTries + 1) * Second.
Proof.
  intros Hm Hd Hfail.
  assert (maxTries < MaxInt64) as Hlt by (unfold Second, MaxInt64 in *; lia).
  assert (sleeps (process DEBUG http maxTries i).1
          = (fun n => n * Second) <$> seqZ 1 maxTries) as Hs.
  { rewrite process_all_fail by done.
    rewrite prepend_fst, sleeps_app, sleeps_retries.
    assert (sleeps (if DEBUG
                    then ([EvFatal ("Failed torrent " +:+ pretty i)], Exit)
                    else ([EvLog ("Failed torrent " +:+ pretty i)], Next)).1
            = []) as -> by (by destruct DEBUG).
    rewrite app_nil_r, Z2Nat.id by lia. cbn [Z.add].
    apply list_fmap_ext. intros j n Hn.
    apply list_elem_of_lookup_2, elem_of_seqZ in Hn.
    apply wrap64_id. unfold in_int64, MinInt64, MaxInt64, Second in *. lia. }
  split; [done|]. rewrite Hs.
  rewrite <-(Z2Nat.id maxTries) at 1 by lia. rewrite sum_seqZ.
  rewrite Z2Nat.id by lia. lia.
Qed.

(** ** Instances

    The properties above at the pages and the networks of the examples. *)

Lemma ParseTorrent_numbers_in_range_witness :
  ParseTorrent page.full (set_Id 1 new_Torrent) = (run.full_record, None)
  /\ 0 <= Size run.full_record <= MaxInt64
  /\ 0 <= Seeders run.full_record <= MaxInt64
  /\ 0 <= Leechers run.full_record <= MaxInt64
  /\ 0 <= Files_num run.full_record <= MaxInt64.
Proof.
  assert (ParseTorrent page.full (set_Id 1 new_Torrent)
          = (run.full_record, None)) as Hrun by (vm_compute; reflexivity).
  split; [exact Hrun|].
  exact (ParseTorrent_numbers_in_range _ _ _ Hrun).
Defined.

Lemma malformed_number_is_overflow_witness :
  numeric FSize = true
  /\ ParseTorrent page.huge_size new_Torrent
     = ((ParseTorrent page.huge_size new_Torrent).1, Some (malformed FSize))
  /\ get FSize (ParseTorrent page.huge_size new_Torrent).1 = VInt MaxInt64
  /\ exists m n, FindSubmatch (pattern FSize) page.huge_size = Some m
      /\ sub1 m <> EmptyString
      /\ all_in digit (sub1 m) = true
      /\ strconv.unsigned (sub1 m) = Some n
      /\ MaxInt64 < n.
Proof.
  assert (numeric FSize = true) as Hn by reflexivity.
  assert (ParseTorrent page.huge_size new_Torrent
          = ((ParseTorrent page.huge_size new_Torrent).1,
             Some (malformed FSize))) as Hrun by (vm_compute; reflexivity).
  refine (conj Hn (conj Hrun _)).
  exact (malformed_number_is_overflow _ _ _ _ Hn Hrun).
Defined.

Lemma verbatim_fields_are_pieces_of_the_page_witness :
  ParseTorrent page.full (set_Id 1 new_Torrent) = (run.full_record, None)
  /\ (exists rest, Magnet run.full_record = "magnet:" +:+ rest
                   /\ rest <> EmptyString)
  /\ (exists pre post, page.full = pre +:+ Magnet run.full_record +:+ post)
  /\ all_in dot (Magnet run.full_record) = true
  /\ Uploader run.full_record <> EmptyString
  /\ (exists pre post, page.full = pre +:+ Uploader run.full_record +:+ post)
  /\ all_in dot (Uploader run.full_record) = true.
Proof.
  assert (ParseTorrent page.full (set_Id 1 new_Torrent)
          = (run.full_record, None)) as Hrun by (vm_compute; reflexivity).
  split; [exact Hrun|].
  exact (verbatim_fields_are_pieces_of_the_page _ _ _ Hrun).
Defined.

Lemma ParseTorrent_success_overwrites_witness :
  ParseTorrent page.full (set_Id 1 new_Torrent) = (run.full_record, None)
  /\ ParseTorrent page.full (set_Id 7 run.partial_record)
     = (set_Id 7 run.full_record, None).
Proof.
  assert (ParseTorrent page.full (set_Id 1 new_Torrent)
          = (run.full_record, None)) as Hrun by (vm_compute; reflexivity).
  split; [exact Hrun|].
  exact (ParseTorrent_success_overwrites _ _ _ (set_Id 7 run.partial_record)
           Hrun).
Defined.

Lemma no_tries_no_request_witness :
  0 <= 0
  /\ process false (run.always page.full) 0 1
     = ([EvLog "Failed torrent 1"], Next)
  /\ process true (run.always page.full) (-2) 1
     = ([EvFatal "Failed torrent 1"], Exit).
Proof.
  assert (0 <= 0) as H0 by lia.
  assert (-2 <= 0) as H2 by lia.
  refine (conj H0 (conj _ _)).
  - exact (no_tries_no_request false (run.always page.full) 0 1 H0).
  - exact (no_tries_no_request true (run.always page.full) (-2) 1 H2).
Defined.

Lemma good_page_is_sent_once_witness :
  Z.of_nat 0 < 3 /\ 3 <= MaxInt64
  /\ bytes.HasPrefix (contents (exact_slice page.full)) doctype = true
  /\ reslice (exact_slice page.full) 300 = Some (substring 0 300 page.full)
  /\ bytes.Index (substring 0 300 page.full) notFoundText < 0
  /\ ParseTorrent (contents (exact_slice page.full)) (set_Id 1 new_Torrent)
     = (run.full_record, None)
  /\ process false (run.always page.full) 3 1
     = ([EvGet (url_of 1); EvSend run.full_record], Next)
  /\ sent (process false (run.always page.full) 3 1).1 = [run.full_record]
  /\ Id run.full_record = 1.
Proof.
  assert (Z.of_nat 0 < 3) as Hk by reflexivity.
  assert (3 <= MaxInt64) as Hm by discriminate.
  assert (bytes.HasPrefix (contents (exact_slice page.full)) doctype = true)
    as Hp by (vm_compute; reflexivity).
  assert (reslice (exact_slice page.full) 300
          = Some (substring 0 300 page.full)) as Hw
      by (vm_compute; reflexivity).
  assert (bytes.Index (substring 0 300 page.full) notFoundText < 0) as Hf
      by (vm_compute; reflexivity).
  assert (ParseTorrent (contents (exact_slice page.full))
            (set_Id 1 new_Torrent) = (run.full_record, None)) as Hrun
      by (vm_compute; reflexivity).
  refine (conj Hk (conj Hm (conj Hp (conj Hw (conj Hf (conj Hrun _)))))).
  destruct (good_page_is_sent_once false (run.always page.full) 3 1 0%nat
              (exact_slice page.full) _ _ Hk Hm (fun n Hn => ltac:(lia))
              eq_refl Hp Hw Hf Hrun) as (Hr & Hs & Hi & _).
  exact (conj Hr (conj Hs Hi)).
Defined.

Lemma runner_sends_sublist_of_received_witness :
  3 < MaxInt64
  /\ sublist (Id <$> sent (runner false (run.always page.full) 3 [1; 2]).1)
             [1; 2]
  /\ (length (gets (runner false (run.always page.full) 3 [1; 2]%Z).1)
      <= 2 * Z.to_nat 3)%nat.
Proof.
  assert (3 < MaxInt64) as Hm by reflexivity.
  split; [exact Hm|].
  exact (runner_sends_sublist_of_received false (run.always page.full) 3
           [1; 2] Hm).
Defined.

Lemma runner_finishes_and_signals_once_witness :
  3 < MaxInt64
  /\ (forall i n body, run.always page.full i n = Body body ->
        (300 <= cap body)%nat)
  /\ exists evs,
      runner false (run.always page.full) 3 [1; 2]
      = (evs ++ [EvLog "Goroutine done."; EvDone], Next)
      /\ EvDone ∉ evs.
Proof.
  assert (3 < MaxInt64) as Hm by reflexivity.
  assert (forall (i n : Z) body, run.always page.full i n = Body body ->
            (300 <= cap body)%nat) as Hc.
  { intros i n body [= <-]. vm_compute. lia. }
  refine (conj Hm (conj Hc _)).
  exact (runner_finishes_and_signals_once (run.always page.full) 3 [1; 2]
           Hm Hc).
Defined.

Lemma distinct_identifiers_distinct_urls_witness :
  1 <> 2 /\ url_of 1 <> url_of 2.
Proof.
  assert (1 <> 2) as Hne by discriminate.
  split; [exact Hne|].
  exact (distinct_identifiers_distinct_urls 1 2 Hne).
Defined.

Lemma fresh_run_stores_every_record_witness :
  in_int64 0 /\ 0 <= 1 /\ 0 + 1 < MaxInt64
  /\ (forall k, 0 + 1 <= k <= 0 + 1 -> (∅ : gmap Z Torrent) !! k = None)
  /\ crawl false (run.always page.full) 3 0 1 (∅ : gmap Z Torrent)
     = Some (({[ 1 := run.full_record ]} : gmap Z Torrent),
             [EvId 1; EvClose;
              EvGet run.url1; EvSend run.full_record;
              EvLog "Goroutine done."; EvDone;
              EvExec run.full_record; EvUnlock; EvLog "Done."])
  /\ (forall t,
        t ∈ sent (runner false (run.always page.full) 3 (seqZ (0 + 1) 1)).1 ->
        ({[ 1 := run.full_record ]} : gmap Z Torrent) !! Id t = Some t)
  /\ size ({[ 1 := run.full_record ]} : gmap Z Torrent)
     = (size (∅ : gmap Z Torrent)
        + length (sent (runner false (run.always page.full) 3
                          (seqZ (0 + 1) 1)).1))%nat.
Proof.
  assert (in_int64 0) as Hs by (split; discriminate).
  assert (0 <= 1) as Hl by lia.
  assert (0 + 1 < MaxInt64) as Hsum by reflexivity.
  assert (forall k : Z, 0 + 1 <= k <= 0 + 1 ->
            (∅ : gmap Z Torrent) !! k = None) as Hfresh
      by (intros k _; apply lookup_empty).
  assert (crawl false (run.always page.full) 3 0 1 (∅ : gmap Z Torrent)
          = Some (({[ 1 := run.full_record ]} : gmap Z Torrent),
                  [EvId 1; EvClose;
                   EvGet run.url1; EvSend run.full_record;
                   EvLog "Goroutine done."; EvDone;
                   EvExec run.full_record; EvUnlock; EvLog "Done."]))
    as Hrun by (vm_compute; reflexivity).
  refine (conj Hs (conj Hl (conj Hsum (conj Hfresh (conj Hrun _))))).
  destruct (fresh_run_stores_every_record false (run.always page.full) 3 0 1
              _ _ _ Hs Hl Hsum Hfresh Hrun) as (Hrows & _ & _ & Hsize).
  exact (conj Hrows Hsize).
Defined.

Lemma dispatcher_at_largest_int_never_closes_witness :
  in_int64 (MaxInt64 - 1) /\ in_int64 1 /\ MaxInt64 - 1 + 1 = MaxInt64
  /\ (dispatcher (MaxInt64 - 1) 1).2 = OutOfFuel
  /\ ids (dispatch 3 (add64 1 (MaxInt64 - 1)) (add64 1 (MaxInt64 - 1))).1
     = [MaxInt64; MinInt64; MinInt64 + 1].
Proof.
  assert (in_int64 (MaxInt64 - 1)) as Hs by (split; discriminate).
  assert (in_int64 1) as Hl by (split; discriminate).
  assert (MaxInt64 - 1 + 1 = MaxInt64) as Hsum by reflexivity.
  refine (conj Hs (conj Hl (conj Hsum (conj _ _)))).
  - exact (proj1 (dispatcher_at_largest_int_never_closes (MaxInt64 - 1) 1 3
                    Hs Hl Hsum)).
  - vm_compute. reflexivity.
Defined.

Lemma dispatcher_beyond_largest_int_wraps_witness :
  in_int64 (MaxInt64 - 1) /\ in_int64 MaxInt64 /\ in_int64 2
  /\ MaxInt64 < MaxInt64 - 1 + 2 /\ MaxInt64 < MaxInt64 + 2
  /\ MaxInt64 - 1 < MaxInt64
  /\ dispatcher (MaxInt64 - 1) 2 = ([EvClose], Next)
  /\ dispatcher MaxInt64 2
     = ([EvId MinInt64; EvId (MinInt64 + 1); EvClose], Next).
Proof.
  assert (in_int64 (MaxInt64 - 1)) as Hs by (split; discriminate).
  assert (in_int64 MaxInt64) as Hs' by (split; discriminate).
  assert (in_int64 2) as Hl by (split; discriminate).
  assert (MaxInt64 < MaxInt64 - 1 + 2) as Hsum by reflexivity.
  assert (MaxInt64 < MaxInt64 + 2) as Hsum' by reflexivity.
  assert (MaxInt64 - 1 < MaxInt64) as Hlt by reflexivity.
  refine (conj Hs (conj Hs' (conj Hl (conj Hsum (conj Hsum'
            (conj Hlt (conj _ _))))))).
  - exact (proj1 (dispatcher_beyond_largest_int_wraps (MaxInt64 - 1) 2
                    Hs Hl Hsum) Hlt).
  - exact (proj2 (dispatcher_beyond_largest_int_wraps MaxInt64 2
                    Hs' Hl Hsum') eq_refl).
Defined.

Lemma getLatest_in_range_witness :
  getLatest (Body (exact_slice recent_page)) = Some 7211054
  /\ 0 <= 7211054 <= MaxInt64.
Proof.
  assert (getLatest (Body (exact_slice recent_page)) = Some 7211054) as Hrun
      by (vm_compute; reflexivity).
  split; [exact Hrun|].
  exact (proj1 (getLatest_in_range _ _ Hrun)).
Defined.

Lemma parseArgs_reads_decimal_witness :
  in_int64 8 /\ in_int64 5 /\ in_int64 100
  /\ parseArgs ["thepiratedb"; "8"; "5"; "100"] = Some (5, 8, 100)
  /\ parseArgs ["thepiratedb"; "8"; "5"] = Some (5, 8, 0).
Proof.
  assert (in_int64 8) as H8 by (split; discriminate).
  assert (in_int64 5) as H5 by (split; discriminate).
  assert (in_int64 100) as H100 by (split; discriminate).
  refine (conj H8 (conj H5 (conj H100 _))).
  exact (parseArgs_reads_decimal "thepiratedb" 8 5 100 [] H8 H5 H100).
Defined.

Lemma runner_stops_at_fatal_identifier_witness :
  (range_ci true run.down 1 []).2 = Next
  /\ (process true run.down 1 1).2 = Exit
  /\ runner true run.down 1 ([] ++ 1 :: [2; 3])
     = ((range_ci true run.down 1 []).1
        ++ progress true 1 ++ (process true run.down 1 1).1, Exit)
  /\ (EvDone ∉ (runner true run.down 1 ([] ++ 1 :: [2; 3])).1).
Proof.
  assert ((range_ci true run.down 1 []).2 = Next) as Hn by reflexivity.
  assert ((process true run.down 1 1).2 = Exit) as He
      by (vm_compute; reflexivity).
  refine (conj Hn (conj He _)).
  exact (runner_stops_at_fatal_identifier true run.down 1 [] 1 [2; 3] Hn He).
Defined.

Lemma abandoned_identifier_sleeps_witness :
  0 <= 3 /\ 3 * Second <= MaxInt64
  /\ (forall n, 1 <= n <= 3 -> retryable (run.down 1 n))
  /\ sleeps (process false run.down 3 1).1
     = (fun n => n * Second) <$> seqZ 1 3
  /\ 2 * foldr Z.add 0 (sleeps (process false run.down 3 1).1)
     = 3 * (3 + 1) * Second.
Proof.
  assert (0 <= 3) as Hm by lia.
  assert (3 * Second <= MaxInt64) as Hd by (vm_compute; discriminate).
  assert (forall n, 1 <= n <= 3 -> retryable (run.down 1 n)) as Hfail
      by (intros n _; exact I).
  refine (conj Hm (conj Hd (conj Hfail _))).
  exact (abandoned_identifier_sleeps false run.down 3 1 Hm Hd Hfail).
Defined.

Lemma process_sends_at_most_one_record_witness :
  sent (process false (run.always page.full) 3 1).1 = [run.full_record]
  /\ (length (sent (process false (run.always page.full) 3 1).1) <= 1)%nat
  /\ Id run.full_record = 1
  /\ exists n body e,
      run.always page.full 1 n = Body body
      /\ bytes.HasPrefix (contents body) doctype = true
      /\ ParseTorrent (contents body) (set_Id 1 new_Torrent)
         = (run.full_record, e)
      /\ (false = true -> e = None).
Proof.
  assert (sent (process false (run.always page.full) 3 1).1
          = [run.full_record]) as Hs by (vm_compute; reflexivity).
  assert (run.full_record
          ∈ sent (process false (run.always page.full) 3 1).1) as Hin
      by (rewrite Hs; apply list_elem_of_here).
  destruct (process_sends_at_most_one_record false (run.always page.full) 3 1)
    as [Hlen Hall].
  destruct (Hall run.full_record Hin) as [Hid Hex].
  exact (conj Hs (conj Hlen (conj Hid Hex))).
Defined.

Lemma strict_writer_stops_at_first_failure_witness :
  List.filter failed
    (inserts [run.full_record; run.full_record] (∅ : gmap Z Torrent)).2 <> []
  /\ execs (writer true [run.full_record; run.full_record]
              (∅ : gmap Z Torrent)).2.1
     = [run.full_record; run.full_record]
  /\ unlocks (writer true [run.full_record; run.full_record]
                (∅ : gmap Z Torrent)).2.1 = 0%nat
  /\ (writer true [run.full_record; run.full_record]
        (∅ : gmap Z Torrent)).2.2 = Exit.
Proof.
  assert (List.filter failed
            (inserts [run.full_record; run.full_record]
               (∅ : gmap Z Torrent)).2 <> []) as Hfail
      by (vm_compute; discriminate).
  destruct (@strict_writer_stops_at_first_failure Torrents_table
              [run.full_record; run.full_record] (∅ : gmap Z Torrent))
    as (_ & _ & Hstop).
  destruct (Hstop Hfail) as (pre & t & post & e & _ & _ & _ & _ & _ & Hun).
  refine (conj Hfail (conj _ (conj Hun _))); vm_compute; reflexivity.
Defined.

Lemma stripTags_keeps_text_without_tags_witness :
  FindSubmatch stripTagsRegexp "x <> y" = None
  /\ stripTags "x <> y" = "x <> y"
  /\ stripTags (stripTags "a<b>c</b>d") = stripTags "a<b>c</b>d".
Proof.
  assert (FindSubmatch stripTagsRegexp "x <> y" = None) as Hno
      by (vm_compute; reflexivity).
  refine (conj Hno (conj _ _)).
  - exact (proj1 (stripTags_keeps_text_without_tags "x <> y") Hno).
  - exact (proj2 (stripTags_keeps_text_without_tags "a<b>c</b>d")).
Defined.
